(** * screen_v2.py: the multi-framework equity screener

    A shallow embedding of [src/screen_v2.py] and the properties of its
    metric derivation, scoring and ranking.

    Numbers.  The script computes on IEEE binary64 values.  Here a float is
    [NaN], one of the two infinities, or a finite value carried as an exact
    rational: rounding, overflow to infinity and the sign of zero are not
    modelled; the undefined value ([np.nan]) and the infinities are, with the
    IEEE rules for them.

    Python values.  [None], ints and floats are the values that reach the
    arithmetic of the script ([info.get(...)] gives [None] for an absent
    key); truthiness ([x or 0], [if pe_eff and g]) follows Python: [None]
    and zero are false, every other number is true, [NaN] included. *)

From Stdlib Require Import QArith Lqa Lia ZArith List Permutation Sorted.
From stdpp Require Import base option list strings gmap.

Local Open Scope Q_scope.

(** ** Floats *)

Inductive fl : Type :=
| NaN
| PInf
| NInf
| Fin (q : Q).

Definition is_nan (x : fl) : bool :=
  match x with NaN => true | _ => false end.

Definition notna (x : fl) : bool := negb (is_nan x).

Definition is_finite (x : fl) : bool :=
  match x with Fin _ => true | _ => false end.

(** Sign of a float: -1, 0 or 1 (0 for [NaN], which no caller passes). *)
Definition fsign (x : fl) : Z :=
  match x with
  | NaN => 0%Z
  | PInf => 1%Z
  | NInf => (-1)%Z
  | Fin q => Z.sgn (Qnum q)
  end.

(** The infinity of a given sign; [NaN] for sign 0 (inf * 0, 0 / 0). *)
Definition inf_of_sign (s : Z) : fl :=
  match s with
  | Z0 => NaN
  | Zpos _ => PInf
  | Zneg _ => NInf
  end.

Definition fopp (x : fl) : fl :=
  match x with
  | NaN => NaN
  | PInf => NInf
  | NInf => PInf
  | Fin q => Fin (- q)
  end.

Definition fadd (x y : fl) : fl :=
  match x, y with
  | NaN, _ | _, NaN => NaN
  | Fin a, Fin b => Fin (a + b)
  | PInf, NInf | NInf, PInf => NaN
  | PInf, _ | _, PInf => PInf
  | NInf, _ | _, NInf => NInf
  end.

Definition fsub (x y : fl) : fl := fadd x (fopp y).

Definition fmul (x y : fl) : fl :=
  match x, y with
  | NaN, _ | _, NaN => NaN
  | Fin a, Fin b => Fin (a * b)
  | _, _ => inf_of_sign (fsign x * fsign y)
  end.

(** Division as numpy does it: a zero divisor gives an infinity (or [NaN]
    for 0/0) and nothing is raised. *)
Definition fdiv (x y : fl) : fl :=
  match x, y with
  | NaN, _ | _, NaN => NaN
  | Fin a, Fin b => if Qeq_bool b 0 then inf_of_sign (fsign x) else Fin (a / b)
  | Fin _, _ => Fin 0
  | _, Fin b => inf_of_sign (fsign x * (if Qeq_bool b 0 then 1 else fsign y))
  | _, _ => NaN
  end.

(** Comparisons: every comparison with [NaN] is false. *)
Definition fleb (x y : fl) : bool :=
  match x, y with
  | NaN, _ | _, NaN => false
  | NInf, _ | _, PInf => true
  | Fin a, Fin b => Qle_bool a b
  | _, _ => false
  end.

Definition fltb (x y : fl) : bool :=
  match x, y with
  | NaN, _ | _, NaN => false
  | Fin a, Fin b => negb (Qle_bool b a)
  | PInf, _ | _, NInf => false
  | _, _ => true
  end.

Definition feqb (x y : fl) : bool :=
  match x, y with
  | Fin a, Fin b => Qeq_bool a b
  | PInf, PInf | NInf, NInf => true
  | _, _ => false
  end.

Definition fgtb (x y : fl) : bool := fltb y x.

(** Two floats denote the same value. *)
Definition feq (x y : fl) : Prop :=
  match x, y with
  | NaN, NaN | PInf, PInf | NInf, NInf => True
  | Fin a, Fin b => a == b
  | _, _ => False
  end.

(** A defined value between 0 and 100. *)
Definition in_0_100 (x : fl) : Prop :=
  match x with
  | Fin q => 0 <= q /\ q <= 100
  | _ => False
  end.

Declare Scope fl_scope.
Delimit Scope fl_scope with fl.
Bind Scope fl_scope with fl.
Infix "+" := fadd : fl_scope.
Infix "-" := fsub : fl_scope.
Infix "*" := fmul : fl_scope.
Infix "/" := fdiv : fl_scope.
Notation "- x" := (fopp x) : fl_scope.

(** ** Python values, exceptions *)

Inductive pyval : Type :=
| PNone
| PInt (z : Z)
| PFloat (x : fl).

Inductive exn : Type :=
| TypeError
| ZeroDivisionError
| KeyError
| IndexError
| AttributeError
| ProviderError.

Inductive result (A : Type) : Type :=
| Ok (a : A)
| Raise (e : exn).
Arguments Ok {A} a.
Arguments Raise {A} e.

#[global] Instance result_ret : MRet result := fun A a => Ok a.
#[global] Instance result_bind : MBind result := fun A B f m =>
  match m with
  | Ok a => f a
  | Raise e => Raise e
  end.

(** [try: body except Exception: handler] *)
Definition try_except {A} (body : result A) (handler : result A) : result A :=
  match body with
  | Ok a => Ok a
  | Raise _ => handler
  end.

(** [bool(x)] *)
Definition fl_truthy (x : fl) : bool :=
  match x with
  | Fin q => negb (Qeq_bool q 0)
  | _ => true
  end.

Definition truthy (v : pyval) : bool :=
  match v with
  | PNone => false
  | PInt z => negb (z =? 0)%Z
  | PFloat x => fl_truthy x
  end.

(** [x or y] *)
Definition py_or (x y : pyval) : pyval := if truthy x then x else y.

(** [x or 0] on a float: the float itself unless it is zero. *)
Definition fl_or0 (x : fl) : fl := if fl_truthy x then x else Fin 0.

(** [float(v)]: [TypeError] on [None]. *)
Definition float (v : pyval) : result fl :=
  match v with
  | PNone => Raise TypeError
  | PInt z => Ok (Fin (inject_Z z))
  | PFloat x => Ok x
  end.

(** [pd.isna(v)]: [None] and [NaN]. *)
Definition isna (v : pyval) : bool :=
  match v with
  | PNone => true
  | PFloat x => is_nan x
  | PInt _ => false
  end.

Definition is_none (v : pyval) : bool :=
  match v with PNone => true | _ => false end.

(** The float a number stands for in arithmetic; [None] has none. *)
Definition as_fl (v : pyval) : option fl :=
  match v with
  | PNone => None
  | PInt z => Some (Fin (inject_Z z))
  | PFloat x => Some x
  end.

(** [a / b] on Python floats: a zero divisor raises. *)
Definition py_truediv (a b : fl) : result fl :=
  if feqb b (Fin 0) then Raise ZeroDivisionError else Ok (a / b)%fl.

(** ** Helper functions *)

(** [safe_div(a, b)] (lines 37-43). *)
Definition safe_div (a b : pyval) : result fl :=
  try_except
    (a' ← float a;
     b' ← float b;
     if feqb b' (Fin 0) || is_nan b' then Ok NaN
     else py_truediv a' b')
    (Ok NaN).

(** A finite number. *)
Definition finite_numeric (v : pyval) : bool :=
  match v with
  | PInt _ | PFloat (Fin _) => true
  | _ => false
  end.

(** [safe_divide] as the specification words it: undefined if either
    operand is not finite-numeric or b is zero, otherwise a/b. *)
Definition safe_divide_spec (a b : pyval) : fl :=
  match as_fl a, as_fl b with
  | Some (Fin p), Some (Fin q) => if Qeq_bool q 0 then NaN else Fin (p / q)
  | _, _ => NaN
  end.

(** ** Macro proxies (lines 97-112)

    The market-data provider is an oracle from a symbol to the month of
    closes it returns (or the exception it raises); every query made is
    appended to a log, the state threaded through the resolver. *)

Definition provider : Type := string -> result (list fl).

Definition M (A : Type) : Type := list string -> A * list string.

Definition ret_M {A} (a : A) : M A := fun log => (a, log).
Definition bind_M {A B} (m : M A) (f : A -> M B) : M B :=
  fun log => let '(a, log') := m log in f a log'.

(** [yf.Ticker(ticker).history(period="1mo", interval="1d")["Close"]] *)
Definition history (prov : provider) (ticker : string) : M (result (list fl)) :=
  fun log => (prov ticker, log ++ [ticker]).

(** [get_macro_proxy(ticker, fallback)] *)
Definition get_macro_proxy (prov : provider) (ticker : string) (fallback : pyval)
  : M pyval :=
  bind_M (history prov ticker) (fun px =>
    ret_M (match px with
           | Raise _ => fallback
           | Ok s => match last s with
                     | None => fallback             (* px.empty *)
                     | Some x => PFloat x           (* float(px.iloc[-1]) *)
                     end
           end)).

(** [macro_ovr.get(key, None)] on the overrides read from JSON ([null] is
    [None]). *)
Definition dict_get (d : gmap string pyval) (key : string) : pyval :=
  default PNone (d !! key).

(** Lines 105-112. *)
Definition resolve_ten_year (macro_ovr : gmap string pyval) (prov : provider)
  : M pyval :=
  let ten_year := dict_get macro_ovr "ten_year_yield" in
  if is_none ten_year then
    bind_M (get_macro_proxy prov "^TNX" PNone) (fun tnx =>
      ret_M (match as_fl tnx with
             | Some x => PFloat (x / Fin 100)
             | None => PFloat NaN
             end))
  else ret_M ten_year.

(** ** Statements of one ticker

    A statement ([tk.cashflow], [tk.income_stmt], ...) maps a line item to
    its values per period, the most recent period first. *)

Abbreviation frame := (gmap string (list fl)).

(** [f.loc[label]] *)
Definition loc (f : option frame) (label : string) : result (list fl) :=
  match f with
  | None => Raise AttributeError
  | Some f => match f !! label with
              | Some s => Ok s
              | None => Raise KeyError
              end
  end.

(** [s.iloc[i]], a negative [i] counting from the end. *)
Definition iloc (s : list fl) (i : Z) : result fl :=
  let n := Z.of_nat (length s) in
  let j := if (i <? 0)%Z then (i + n)%Z else i in
  if (0 <=? j)%Z && (j <? n)%Z
  then match s !! Z.to_nat j with Some x => Ok x | None => Raise IndexError end
  else Raise IndexError.

(** [s.dropna()] *)
Definition dropna (s : list fl) : list fl := List.filter notna s.

(** [s.sum()] of pandas, which skips [NaN]. *)
Definition nansum (s : list fl) : fl :=
  fold_left fadd (dropna s) (Fin 0).

(** [f.empty] *)
Definition frame_empty (f : frame) : bool :=
  bool_decide (map_Forall (fun _ s => s = @nil fl) f).

(** [try: x = body] / [except Exception: x = d] *)
Definition value_or {A} (body : result A) (d : A) : A :=
  match body with Ok a => a | Raise _ => d end.

(** *** TTM free cash flow (lines 159-170) *)

Definition ocf_label : string := "Total Cash From Operating Activities".
Definition capex_label : string := "Capital Expenditures".

(** The quarterly sums, else the latest annual values, else NaN. *)
Definition ocf_capex (quarterly_cashflow : result frame) (cf : option frame)
  : fl * fl :=
  value_or
    (qcf ← quarterly_cashflow;
     o ← loc (Some qcf) ocf_label;
     c ← loc (Some qcf) capex_label;
     Ok (nansum (take 4 o), nansum (take 4 c)))
    (value_or
       (o ← loc cf ocf_label;
        ocf ← iloc o 0;
        c ← loc cf capex_label;
        capex ← iloc c 0;
        Ok (ocf, capex))
       (NaN, NaN)).

(** [fcf = (ocf or 0) - (capex or 0)] *)
Definition fcf_of (ocf capex : fl) : fl := (fl_or0 ocf - fl_or0 capex)%fl.

Definition fcf (quarterly_cashflow : result frame) (cf : option frame) : fl :=
  let '(ocf, capex) := ocf_capex quarterly_cashflow cf in fcf_of ocf capex.

Definition zero_if_missing (x : fl) : fl := if is_nan x then Fin 0 else x.

(** Free cash flow as the specification words it: a missing operand counts
    as zero. *)
Definition fcf_spec (ocf capex : fl) : fl :=
  (zero_if_missing ocf - zero_if_missing capex)%fl.

(** *** Invested capital (lines 187-216) *)

Record bs_period : Type := {
  ta : fl; cl : fl; cash : fl; sti : fl; gw : fl; intang : fl
}.

Definition nan_period : bs_period :=
  {| ta := NaN; cl := NaN; cash := NaN; sti := NaN; gw := NaN; intang := NaN |}.

(** [bs_.loc.get(label, default)], read as the lookup with a default that
    the call is written as: the row when the statement has the label, the
    default series otherwise. *)
Definition loc_get (bs : option frame) (label : string) (dflt : list fl)
  : result (list fl) :=
  match bs with
  | None => Raise AttributeError
  | Some f => Ok (default dflt (f !! label))
  end.

(** The six reads of period [i] (0: latest, 1: prior) with their [except]
    branch; the defaults are the series of [i + 1] values of the source. *)
Definition read_period (bs : option frame) (i : nat) : bs_period :=
  let nans := replicate (S i) NaN in
  let zeros := replicate (S i) (Fin 0) in
  let idx := Z.of_nat i in
  value_or
    (ta ← loc bs "Total Assets" ≫= (fun s => iloc s idx);
     cl ← loc bs "Total Current Liabilities" ≫= (fun s => iloc s idx);
     cash ← loc_get bs "Cash And Cash Equivalents" nans ≫= (fun s => iloc s idx);
     sti ← loc_get bs "Short Term Investments" zeros ≫= (fun s => iloc s idx);
     gw ← loc_get bs "Goodwill" zeros ≫= (fun s => iloc s idx);
     inta ← loc_get bs "Intangible Assets" zeros ≫= (fun s => iloc s idx);
     Ok {| ta := ta; cl := cl; cash := cash; sti := sti; gw := gw; intang := inta |})
    nan_period.

Definition invested_cap (ta cl cash sti gw inta : fl) : fl :=
  if is_nan ta && is_nan cl then NaN
  else
    let cashlike := (fl_or0 cash + fl_or0 sti)%fl in
    let soft := (fl_or0 gw + fl_or0 inta)%fl in
    ((ta - cl) - cashlike - soft)%fl.

Definition invested_cap_of (p : bs_period) : fl :=
  invested_cap (ta p) (cl p) (cash p) (sti p) (gw p) (intang p).

Definition ic_now (bs : option frame) : fl := invested_cap_of (read_period bs 0).
Definition ic_prev (bs : option frame) : fl := invested_cap_of (read_period bs 1).

(** Invested capital as the specification words it: the four subtracted
    components count as zero when undefined. *)
Definition invested_cap_spec (ta cl cash sti gw inta : fl) : fl :=
  if is_nan ta || is_nan cl then NaN
  else ((ta - cl) - (zero_if_missing cash + zero_if_missing sti)
        - (zero_if_missing gw + zero_if_missing inta))%fl.

(** ** Example statements *)

(** The annual statement of a ticker without quarterly data: the operating
    cash flow of the latest year is missing. *)
Definition cf_ocf_missing : frame :=
  {[ ocf_label := [NaN; Fin 900]; capex_label := [Fin 50; Fin 40] ]}.

(** The capital expenditure line is absent altogether. *)
Definition cf_no_capex : frame := {[ ocf_label := [Fin 500; Fin 450] ]}.

(** A balance sheet without the cash line. *)
Definition bs_no_cash : frame :=
  {[ "Total Assets"%string := [Fin 100; Fin 90];
     "Total Current Liabilities"%string := [Fin 20; Fin 10];
     "Short Term Investments"%string := [Fin 5; Fin 5];
     "Goodwill"%string := [Fin 10; Fin 10];
     "Intangible Assets"%string := [Fin 5; Fin 5] ]}.

(** Four years of revenue, the latest first. *)
Definition is_four_years : frame :=
  {[ "Total Revenue"%string := [Fin 800; Fin 400; Fin 200; Fin 100] ]}.

(** ** Square root used to run the model

    [np.nanstd] takes a square root, which the scores are stated for as a
    parameter; this instance, the root truncated to nine decimals, is the
    one the examples run with. *)
Definition sqrt9 (q : Q) : Q :=
  Qmake (Z.sqrt (Qnum q * 10 ^ 18 / Z.pos (Qden q))) (10 ^ 9).

Section Screen.

(** numpy's power [x ** y] and the square root of a non-negative rational:
    library primitives, taken as parameters. *)
Variable npow : fl -> fl -> fl.
Variable sqrtQ : Q -> Q.

(** [cagr(first, last, years)] (lines 45-51); on numbers nothing in its
    body raises. *)
Definition cagr (first last : pyval) (years : Z) : fl :=
  match as_fl first, as_fl last with
  | Some f, Some l =>
      if fleb f (Fin 0) || (years <=? 0)%Z then NaN
      else (npow (l / f) (Fin (1 / inject_Z years)) - Fin 1)%fl
  | _, _ => NaN
  end.

(** *** Growth proxy (lines 239-268) *)

Definition revenue_label : string := "Total Revenue".

(** The revenue CAGR of lines 241-254. *)
Definition growth_rev (is_ : option frame) : fl :=
  value_or
    (match is_ with
     | None => Ok NaN
     | Some f =>
         if frame_empty f then Ok NaN
         else
           s ← loc is_ revenue_label;
           let rev_hist := dropna (take 4 s) in
           if (2 <=? length rev_hist)%nat then
             let years := (Z.of_nat (length rev_hist) - 1)%Z in
             first ← iloc rev_hist (-1 * years);
             latest ← iloc rev_hist 0;
             Ok (cagr (PFloat first) (PFloat latest) years)
           else Ok NaN
     end)
    NaN.

(** Lines 256-257: the analyst estimate when there is one. *)
Definition growth_of (earningsGrowth : pyval) (is_ : option frame) : pyval :=
  if is_none earningsGrowth || isna earningsGrowth
  then PFloat (growth_rev is_)
  else earningsGrowth.

(** Lines 266-268: [g], the growth proxy of the output. *)
Definition positive_growth (growth : pyval) : fl :=
  let g := match as_fl growth with
           | Some x => if negb (isna growth) then x else NaN
           | None => NaN
           end in
  if notna g && fleb g (Fin 0) then NaN else g.

Definition growth_proxy (earningsGrowth : pyval) (is_ : option frame) : fl :=
  positive_growth (growth_of earningsGrowth is_).

(** The revenue CAGR as the specification words it: earliest against latest
    available observation over count - 1 years. *)
Definition growth_rev_spec (revenue : list fl) : fl :=
  let rev_hist := dropna (take 4 revenue) in
  match rev_hist, last rev_hist with
  | latest :: _ :: _, Some earliest =>
      cagr (PFloat earliest) (PFloat latest) (Z.of_nat (length rev_hist) - 1)
  | _, _ => NaN
  end.

(** *** PEG and PEGY (lines 259-283) *)

Definition info_get (info : gmap string pyval) (key : string) : pyval :=
  dict_get info key.

(** [price], [pe], [pe_eff] (lines 132-134, 260-263). *)
Definition price_of (info : gmap string pyval) : pyval :=
  py_or (info_get info "currentPrice") (info_get info "regularMarketPrice").

Definition pe_of (info : gmap string pyval) : pyval :=
  py_or (info_get info "trailingPE") (info_get info "forwardPE").

Definition pe_eff_of (info : gmap string pyval) : result pyval :=
  let pe := pe_of info in
  if (is_none pe || isna pe) && truthy (info_get info "trailingEps")
  then x ← safe_div (price_of info) (info_get info "trailingEps"); Ok (PFloat x)
  else Ok pe.

(** Lines 270-276.  [pe_eff] is a number when it is true; the divisor is
    [NaN] or not zero, so neither division raises. *)
Definition PEG (pe_eff : pyval) (g : fl) : fl :=
  if truthy pe_eff && fl_truthy g then
    match as_fl pe_eff with
    | Some pe => if fltb g (Fin 1) then (pe / (g * Fin 100))%fl else (pe / g)%fl
    | None => NaN
    end
  else NaN.

(** The float of [v or 0]. *)
Definition py_or0 (v : pyval) : fl :=
  match as_fl (py_or v (PInt 0)) with
  | Some x => x
  | None => Fin 0
  end.

(** [div_pct] (line 278). *)
Definition div_pct (div_y : pyval) : pyval :=
  match as_fl div_y with
  | Some d =>
      if truthy div_y && fltb d (Fin 1)
      then PFloat (py_or0 div_y * Fin 100)%fl
      else div_y
  | None => div_y
  end.

(** Lines 279-283; [None] when it is not computed. *)
Definition PEGY (pe_eff : pyval) (g : fl) (div_y : pyval) : result pyval :=
  if negb (isna pe_eff) && notna g then
    let denom := if fl_truthy g && fltb g (Fin 1) then (g * Fin 100)%fl else g in
    let denom := (denom + py_or0 (div_pct div_y))%fl in
    x ← safe_div pe_eff (PFloat denom); Ok (PFloat x)
  else Ok PNone.

(** *** Price to free cash flow (line 294) *)

Definition p_to_fcf (mcap : pyval) (fcf : fl) : result fl :=
  if notna fcf && fgtb fcf (Fin 0) then safe_div mcap (PFloat fcf) else Ok NaN.

(** ** The frame of derived metrics (lines 319-333)

    One row per ticker; every numeric column is a column of floats ([None]
    becomes [NaN] when the frame is built). *)

Record metrics : Type := {
  roic_est : fl; fcf_margin : fl; fcf_yield : fl; ebit_margin : fl;
  net_debt : fl; interest_coverage : fl;
  PEG_col : fl; PEGY_col : fl; growth_proxy_col : fl;
  cash_to_mcap : fl; p_to_fcf_col : fl; shares_chg_3y : fl;
  macro_sensitivity : fl;
  weekly_ac : fl; vol_clust : fl; ret_pred : fl;
  patent_count : fl; forward_citations : fl; rd_to_sales : fl
}.

Record row : Type := { ticker : string; metric : metrics }.

(** [df[name]] *)
Definition col (f : metrics -> fl) (df : list row) : list fl :=
  map (fun r => f (metric r)) df.

(** The loop over the universe (lines 123-331): one row per ticker, in the
    order of the universe; [fetch] stands for the derivation of a ticker's
    metrics from the provider's data. *)
Definition collect (fetch : string -> metrics) (u : list string) : list row :=
  map (fun t => {| ticker := t; metric := fetch t |}) u.

(** ** Cross-sectional normalisation (lines 337-342) *)

Definition eps9 : fl := Fin 0.000000001.

Definition fsum (s : list fl) : fl := fold_left fadd s (Fin 0).

Definition count (s : list fl) : fl := Fin (inject_Z (Z.of_nat (length s))).

(** [np.nanmean]: [NaN] on a column without a defined entry (0/0). *)
Definition nanmean (s : list fl) : fl :=
  (fsum (dropna s) / count (dropna s))%fl.

Definition fsqrt (x : fl) : fl :=
  match x with
  | Fin q => if Qle_bool 0 q then Fin (sqrtQ q) else NaN
  | PInf => PInf
  | _ => NaN
  end.

(** [np.nanstd]: the population deviation of the defined entries. *)
Definition nanstd (s : list fl) : fl :=
  let xs := dropna s in
  let avg := (fsum xs / count xs)%fl in
  fsqrt (fsum (map (fun x => ((x - avg) * (x - avg))%fl) xs) / count xs)%fl.

Definition fmin (x y : fl) : fl := if fleb y x then y else x.
Definition fmax (x y : fl) : fl := if fleb x y then y else x.

(** [np.nanmin], [np.nanmax]: [NaN] on a column without a defined entry. *)
Definition nanmin (s : list fl) : fl :=
  match dropna s with
  | [] => NaN
  | x :: xs => fold_left fmin xs x
  end.

Definition nanmax (s : list fl) : fl :=
  match dropna s with
  | [] => NaN
  | x :: xs => fold_left fmax xs x
  end.

Definition zscore (s : list fl) : list fl :=
  let m := nanmean s in
  let sd := nanstd s in
  map (fun x => ((x - m) / (sd + eps9))%fl) s.

Definition pos_clip (s : list fl) : list fl :=
  let lo := nanmin s in
  let hi := nanmax s in
  map (fun x => (Fin 100 * (x - lo) / (hi - lo + eps9))%fl) s.

(** A column without infinities. *)
Definition finite_column (s : list fl) : Prop :=
  Forall (fun x => x = NaN \/ is_finite x = true) s.

(** Series arithmetic, element by element. *)
Definition scale (w : Q) (s : list fl) : list fl := map (fmul (Fin w)) s.
Definition sneg (s : list fl) : list fl := map fopp s.
Definition sadd (s t : list fl) : list fl := zip_with fadd s t.
Definition sinv (s : list fl) : list fl := map (fun x => (Fin 1 / (x + eps9))%fl) s.

Declare Scope series_scope.
Delimit Scope series_scope with series.
Infix "+" := sadd : series_scope.
Infix "*" := scale : series_scope.

(** ** Sub-scores (lines 345-390) *)

Definition buffett_raw (df : list row) : list fl :=
  (0.35 * zscore (col roic_est df) +
   0.20 * zscore (col fcf_margin df) +
   0.15 * zscore (col fcf_yield df) +
   0.15 * zscore (col ebit_margin df) +
   0.10 * sneg (zscore (col net_debt df)) +
   0.05 * zscore (col interest_coverage df))%series.

Definition inv_PEG (df : list row) : list fl := sinv (col PEG_col df).
Definition inv_PEGY (df : list row) : list fl := sinv (col PEGY_col df).
Definition inv_p_to_fcf (df : list row) : list fl := sinv (col p_to_fcf_col df).

Definition lynch_raw (df : list row) : list fl :=
  (0.35 * zscore (inv_PEG df) +
   0.25 * zscore (inv_PEGY df) +
   0.25 * zscore (col growth_proxy_col df) +
   0.15 * sneg (zscore (col net_debt df)))%series.

Definition icahn_raw (df : list row) : list fl :=
  (0.35 * zscore (col cash_to_mcap df) +
   0.35 * zscore (inv_p_to_fcf df) +
   0.20 * sneg (zscore (col shares_chg_3y df)) +
   0.10 * sneg (zscore (col net_debt df)))%series.

Definition soros_raw (df : list row) : list fl :=
  (0.50 * zscore (inv_p_to_fcf df) +
   0.30 * zscore (col macro_sensitivity df) +
   0.20 * zscore (col interest_coverage df))%series.

Definition simons_raw (df : list row) : list fl :=
  (0.34 * zscore (col weekly_ac df) +
   0.33 * zscore (col vol_clust df) +
   0.33 * zscore (col ret_pred df))%series.

(** *** IP boost (lines 393-400); the three columns are always in the
    frame, so the branch is always taken. *)

Definition ip_z (df : list row) : list fl :=
  (0.50 * zscore (col patent_count df) +
   0.30 * zscore (col forward_citations df) +
   0.20 * zscore (col rd_to_sales df))%series.

(** [np.where(np.isnan(ip_z), score, score*0.9 + pos_clip(ip_z)*0.1)] *)
Definition ip_boost (ipz score : list fl) : list fl :=
  zip_with (fun zp s =>
              if is_nan (fst zp) then s
              else (s * Fin 0.9 + snd zp * Fin 0.1)%fl)
           (zip ipz (pos_clip ipz)) score.

Definition buffett_score (df : list row) : list fl :=
  ip_boost (ip_z df) (pos_clip (buffett_raw df)).
Definition lynch_score (df : list row) : list fl := pos_clip (lynch_raw df).
Definition icahn_score (df : list row) : list fl := pos_clip (icahn_raw df).
Definition soros_score (df : list row) : list fl := pos_clip (soros_raw df).
Definition simons_score (df : list row) : list fl :=
  ip_boost (ip_z df) (pos_clip (simons_raw df)).

(** *** Meta-score (lines 403-409) *)

Definition meta_score (df : list row) : list fl :=
  (0.25 * buffett_score df +
   0.20 * lynch_score df +
   0.20 * icahn_score df +
   0.15 * soros_score df +
   0.20 * simons_score df)%series.

(** ** Output (lines 417-429) *)

Record scored : Type := {
  base : row;
  buffett : fl; lynch : fl; icahn : fl; soros : fl; simons : fl;
  meta : fl
}.

(** The value of a column at a row position. *)
Definition cell (s : list fl) (i : nat) : fl := default NaN (s !! i).

(** The frame with its score columns. *)
Definition with_scores (df : list row) : list scored :=
  imap (fun i r =>
          {| base := r;
             buffett := cell (buffett_score df) i;
             lynch := cell (lynch_score df) i;
             icahn := cell (icahn_score df) i;
             soros := cell (soros_score df) i;
             simons := cell (simons_score df) i;
             meta := cell (meta_score df) i |}) df.

(** [x] is placed strictly before [y] by a descending sort that puts the
    undefined keys last. *)
Definition before (x y : fl) : bool :=
  notna x && (is_nan y || fgtb x y).

Section Sort.
Context {A : Type} (key : A -> fl).

Fixpoint insert_desc (x : A) (l : list A) : list A :=
  match l with
  | [] => [x]
  | y :: l' => if before (key y) (key x) then y :: insert_desc x l'
               else x :: l
  end.

(** [df.sort_values(key, ascending=False)]: descending, rows with an
    undefined key last; rows with equal keys are left in the order of the
    frame, the column being the only sort key. *)
Definition sort_values (df : list A) : list A :=
  foldr insert_desc [] df.

(** [b] does not belong strictly before [a]. *)
Definition in_order (a b : A) : Prop := before (key b) (key a) = false.

End Sort.

(** The rows written to [screen_results_v2.csv]. *)
Definition screen (fetch : string -> metrics) (u : list string) : list scored :=
  sort_values meta (with_scores (collect fetch u)).

Definition tickers (out : list scored) : list string :=
  map (fun r => ticker (base r)) out.

(** ** The claims as the specification words them *)

(** The output as the specification words it: rows with equal meta-score
    are in ascending ticker order. *)
Definition ticker_tie_break (out : list scored) : Prop :=
  forall i j a b, (i < j)%nat -> out !! i = Some a -> out !! j = Some b ->
    feq (meta a) (meta b) ->
    String.leb (ticker (base a)) (ticker (base b)) = true.

(** A sub-score sum as the specification words it: undefined only if all
    of its components are undefined. *)
Definition omits_undefined (components : list fl) (sum : fl) : Prop :=
  sum = NaN -> Forall (fun c => c = NaN) components.

(** ** Example universe

    AAA has a ROIC of 0.20 and an EBIT margin of 0.18 and no other metric;
    BBB and CCC have every metric but the patent ones. *)

Definition nan_metrics : metrics :=
  {| roic_est := NaN; fcf_margin := NaN; fcf_yield := NaN; ebit_margin := NaN;
     net_debt := NaN; interest_coverage := NaN;
     PEG_col := NaN; PEGY_col := NaN; growth_proxy_col := NaN;
     cash_to_mcap := NaN; p_to_fcf_col := NaN; shares_chg_3y := NaN;
     macro_sensitivity := NaN;
     weekly_ac := NaN; vol_clust := NaN; ret_pred := NaN;
     patent_count := NaN; forward_citations := NaN; rd_to_sales := NaN |}.

Definition AAA_metrics : metrics :=
  {| roic_est := Fin 0.20; fcf_margin := NaN; fcf_yield := NaN;
     ebit_margin := Fin 0.18;
     net_debt := NaN; interest_coverage := NaN;
     PEG_col := NaN; PEGY_col := NaN; growth_proxy_col := NaN;
     cash_to_mcap := NaN; p_to_fcf_col := NaN; shares_chg_3y := NaN;
     macro_sensitivity := Fin 1;
     weekly_ac := NaN; vol_clust := NaN; ret_pred := NaN;
     patent_count := NaN; forward_citations := NaN; rd_to_sales := NaN |}.

Definition BBB_metrics : metrics :=
  {| roic_est := Fin 0.05; fcf_margin := Fin 0.08; fcf_yield := Fin 0.04;
     ebit_margin := Fin 0.05;
     net_debt := Fin 120; interest_coverage := Fin 4;
     PEG_col := Fin 2; PEGY_col := Fin 1.5; growth_proxy_col := Fin 0.10;
     cash_to_mcap := Fin 0.1; p_to_fcf_col := Fin 25; shares_chg_3y := Fin 0.02;
     macro_sensitivity := Fin 2;
     weekly_ac := Fin 0.05; vol_clust := Fin 0.2; ret_pred := Fin 0.1;
     patent_count := NaN; forward_citations := NaN; rd_to_sales := NaN |}.

Definition CCC_metrics : metrics :=
  {| roic_est := Fin 0.11; fcf_margin := Fin 0.12; fcf_yield := Fin 0.06;
     ebit_margin := Fin 0.15;
     net_debt := Fin 40; interest_coverage := Fin 9;
     PEG_col := Fin 1; PEGY_col := Fin 0.8; growth_proxy_col := Fin 0.20;
     cash_to_mcap := Fin 0.3; p_to_fcf_col := Fin 16; shares_chg_3y := Fin (-0.04);
     macro_sensitivity := Fin 0;
     weekly_ac := Fin (-0.02); vol_clust := Fin 0.1; ret_pred := Fin 0.3;
     patent_count := NaN; forward_citations := NaN; rd_to_sales := NaN |}.

Definition fetch3 (t : string) : metrics :=
  if String.eqb t "AAA" then AAA_metrics
  else if String.eqb t "BBB" then BBB_metrics
  else CCC_metrics.

Definition df3 : list row := collect fetch3 ["AAA"; "BBB"; "CCC"]%string.

(** ** More of the script

    The helpers, the macro proxies and the per-ticker derivations that the
    sections above leave out. *)

Definition fabs (x : fl) : fl :=
  match x with
  | NaN => NaN
  | PInf | NInf => PInf
  | Fin q => Fin (if Qle_bool 0 q then q else - q)
  end.

(** [pct_change(a, b)] (lines 53-57).  A NaN [a] gives NaN on either side
    of the membership test, through the arithmetic or through the branch. *)
Definition pct_change (a b : pyval) : fl :=
  value_or
    (match as_fl a with
     | None => Ok NaN
     | Some a' =>
         if feqb a' (Fin 0) then Ok NaN
         else
           b' ← float b;
           py_truediv (b' - a')%fl (fabs a')
     end)
    NaN.

(** The three-year change in shares outstanding (lines 286-291);
    [tk.get_shares_full(...)] may raise or return [None]; the series is in
    chronological order. *)
Definition shr_change (get_shares_full : result (option (list fl))) : fl :=
  value_or
    (o ← get_shares_full;
     match o with
     | None => Raise AttributeError
     | Some shares =>
         let shares := dropna shares in
         if (2 <=? length shares)%nat then
           first ← iloc shares 0;
           latest ← iloc shares (-1);
           Ok (pct_change (PFloat first) (PFloat latest))
         else Ok NaN
     end)
    NaN.

(** *** The other macro proxies (lines 114-116)

    [macro_ovr.get(key, default)]: the default is an argument, evaluated
    before the lookup. *)

Definition dict_get_or (d : gmap string pyval) (key : string) (dflt : pyval) : pyval :=
  default dflt (d !! key).

Definition resolve_usd_dxy (macro_ovr : gmap string pyval) (prov : provider)
  : M pyval :=
  bind_M (get_macro_proxy prov "^DXY" (PFloat NaN)) (fun secondary =>
  bind_M (get_macro_proxy prov "DX-Y.NYB" secondary) (fun primary =>
  ret_M (dict_get_or macro_ovr "usd_dxy" primary))).

Definition resolve_wti (macro_ovr : gmap string pyval) (prov : provider)
  : M pyval :=
  bind_M (get_macro_proxy prov "CL=F" (PFloat NaN)) (fun px =>
  ret_M (dict_get_or macro_ovr "wti" px)).

Definition resolve_gold (macro_ovr : gmap string pyval) (prov : provider)
  : M pyval :=
  bind_M (get_macro_proxy prov "GC=F" (PFloat NaN)) (fun px =>
  ret_M (dict_get_or macro_ovr "gold" px)).

Record macro_set : Type := {
  ten_year : pyval; usd_dxy : pyval; wti : pyval; gold : pyval
}.

(** Lines 105-116, in the order of the script. *)
Definition macro_proxies (macro_ovr : gmap string pyval) (prov : provider)
  : M macro_set :=
  bind_M (resolve_ten_year macro_ovr prov) (fun t =>
  bind_M (resolve_usd_dxy macro_ovr prov) (fun d =>
  bind_M (resolve_wti macro_ovr prov) (fun w =>
  bind_M (resolve_gold macro_ovr prov) (fun g =>
  ret_M {| ten_year := t; usd_dxy := d; wti := w; gold := g |})))).

(** The ten-year yield has an override. *)
Definition overridden (macro_ovr : gmap string pyval) : bool :=
  negb (is_none (dict_get macro_ovr "ten_year_yield")).

(** *** ROIC, leverage (lines 216-235) *)

(** [ic_avg = np.nanmean([ic_now, ic_prev])] *)
Definition ic_avg (ic_now ic_prev : fl) : fl := nanmean [ic_now; ic_prev].

Definition tax_rate : Q := 0.21.

Definition nopat (ebit : fl) : fl :=
  if notna ebit then (ebit * Fin (1 - tax_rate))%fl else NaN.

Definition roic (ebit ic_now ic_prev : fl) : result fl :=
  safe_div (PFloat (nopat ebit)) (PFloat (ic_avg ic_now ic_prev)).


(** Line 235. *)
Definition int_cov (ebit interest_exp : fl) : result fl :=
  safe_div (PFloat ebit)
           (PFloat (if notna interest_exp then fabs interest_exp else NaN)).

(** *** Macro sensitivity (lines 297-306)

    Strings are taken as ASCII. *)

Definition ascii_lower (c : Ascii.ascii) : Ascii.ascii :=
  let n := Ascii.nat_of_ascii c in
  if (65 <=? n)%nat && (n <=? 90)%nat then Ascii.ascii_of_nat (n + 32) else c.

Definition ascii_upper (c : Ascii.ascii) : Ascii.ascii :=
  let n := Ascii.nat_of_ascii c in
  if (97 <=? n)%nat && (n <=? 122)%nat then Ascii.ascii_of_nat (n - 32) else c.

Fixpoint lower (s : string) : string :=
  match s with
  | EmptyString => EmptyString
  | String c s' => String (ascii_lower c) (lower s')
  end.

Fixpoint upper (s : string) : string :=
  match s with
  | EmptyString => EmptyString
  | String c s' => String (ascii_upper c) (upper s')
  end.

(** [k in s] on strings. *)
Fixpoint contains (k s : string) : bool :=
  String.prefix k s ||
  match s with
  | EmptyString => false
  | String _ s' => contains k s'
  end.

(** [(info.get("sector") or "").lower()] *)
Definition sector_of (sector : option string) : string :=
  lower (default EmptyString sector).

Definition cyclical (sector : string) : bool :=
  existsb (fun k => contains k sector)
    ["financial"; "materials"; "industr"; "energy"; "discretionary"]%string.

(** [("financial" in sector) or (net_debt and net_debt > 0)], as the
    condition of the conditional expression that reads it. *)
Definition rate_sensitive (sector : string) (net_debt : fl) : bool :=
  contains "financial" sector || (fl_truthy net_debt && fgtb net_debt (Fin 0)).

Definition fx_sensitive (sector : string) : bool :=
  contains "materials" sector || contains "industr" sector
  || contains "technology" sector.

Definition one_if (b : bool) : fl := if b then Fin 1 else Fin 0.

Definition macro_sensitivity_of (sector : option string) (net_debt : fl) : fl :=
  let sector := sector_of sector in
  fsum [one_if (cyclical sector);
        one_if (rate_sensitive sector net_debt);
        one_if (fx_sensitive sector)].

(** *** Patents (lines 64-73, 86-90, 311-317)

    The optional table, row by row: the ticker of a row and its cells by
    column name (an empty cell is NaN); [ip_columns] are the columns of the
    file.  The table has a ticker column, which [load_optional_csv] has put
    in upper case. *)

Record ip_table : Type := {
  ip_columns : list string;
  ip_rows : list (string * gmap string fl)
}.

(** [df[index_col] = df[index_col].astype(str).str.upper()] *)
Definition load_upper (t : ip_table) : ip_table :=
  {| ip_columns := ip_columns t;
     ip_rows := map (fun r => (upper (fst r), snd r)) (ip_rows t) |}.

(** [pat[pat["ticker"].str.upper() == t]] *)
Definition ip_rec (pat : ip_table) (t : string) : list (string * gmap string fl) :=
  List.filter (fun r => String.eqb (upper (fst r)) t) (ip_rows pat).

(** [rec[col].iloc[0] if col in rec.columns else np.nan], [rec] not empty. *)
Definition ip_field (pat : ip_table) (r : string * gmap string fl) (col : string) : fl :=
  if existsb (String.eqb col) (ip_columns pat)
  then default NaN (snd r !! col)
  else NaN.

Record ip_metrics : Type := { ip_patents : fl; ip_citations : fl; ip_rd : fl }.

Definition no_ip : ip_metrics :=
  {| ip_patents := NaN; ip_citations := NaN; ip_rd := NaN |}.

Definition ip_lookup (pat : option ip_table) (t : string) : ip_metrics :=
  match pat with
  | None => no_ip
  | Some pat =>
      match ip_rec pat t with
      | [] => no_ip
      | r :: _ =>
          {| ip_patents := ip_field pat r "patent_count";
             ip_citations := ip_field pat r "forward_citations";
             ip_rd := ip_field pat r "rd_to_sales" |}
      end
  end.

(** The IP fields of a ticker as written in [tickers.csv] and a table as
    written in [patents.csv]: both tickers go through [upper]. *)
Definition ip_of (patents_csv : option ip_table) (ticker_csv : string) : ip_metrics :=
  ip_lookup (load_upper <$> patents_csv) (upper ticker_csv).

(** *** The summary (line 432) *)

Definition top20 (fetch : string -> metrics) (u : list string) : list scored :=
  take 20 (sort_values meta (with_scores (collect fetch u))).

(** * Properties *)

(** ** Floats and Python values *)

Lemma Qeq_bool_false (a b : Q) : Qeq_bool a b = false <-> ~ a == b.
Proof.
  split.
  - intros H E. apply Qeq_bool_iff in E. congruence.
  - intros H. destruct (Qeq_bool a b) eqn:E; [|reflexivity].
    apply Qeq_bool_iff in E. contradiction.
Qed.

Lemma Qle_bool_false (a b : Q) : Qle_bool a b = false <-> b < a.
Proof.
  split.
  - intros H. apply Qnot_le_lt. intros E. apply Qle_bool_iff in E. congruence.
  - intros H. destruct (Qle_bool a b) eqn:E; [|reflexivity].
    apply Qle_bool_iff in E. lra.
Qed.

(** Reflect the boolean tests on rationals into the context. *)
Ltac qbool :=
  repeat match goal with
    | H : Qeq_bool _ _ = true |- _ => apply Qeq_bool_iff in H
    | H : Qeq_bool _ _ = false |- _ => apply Qeq_bool_false in H
    | H : Qle_bool _ _ = true |- _ => apply Qle_bool_iff in H
    | H : Qle_bool _ _ = false |- _ => apply Qle_bool_false in H
    end.

Lemma fadd_nan_l (y : fl) : (NaN + y)%fl = NaN.
Proof. reflexivity. Qed.

Lemma fadd_nan_r (x : fl) : (x + NaN)%fl = NaN.
Proof. by destruct x. Qed.

Lemma fadd_notna (x y : fl) : (x + y)%fl <> NaN -> x <> NaN /\ y <> NaN.
Proof. destruct x, y; simpl; intros H; split; congruence. Qed.

Lemma fmul_notna (x y : fl) : (x * y)%fl <> NaN -> x <> NaN /\ y <> NaN.
Proof. destruct x, y; simpl; intros H; split; congruence. Qed.

Lemma fdiv_notna (x y : fl) : (x / y)%fl <> NaN -> x <> NaN /\ y <> NaN.
Proof. destruct x, y; simpl; intros H; split; congruence. Qed.

Lemma is_nan_true (x : fl) : is_nan x = true <-> x = NaN.
Proof. destruct x; simpl; split; congruence. Qed.

Lemma is_nan_false (x : fl) : is_nan x = false <-> x <> NaN.
Proof. destruct x; simpl; split; congruence. Qed.

(** ** safe_div *)

(** The value [safe_div] returns, in one equation: it never raises. *)
Lemma safe_div_value (a b : pyval) :
  safe_div a b =
  Ok (match as_fl a, as_fl b with
      | Some x, Some y => if feqb y (Fin 0) || is_nan y then NaN else (x / y)%fl
      | _, _ => NaN
      end).
Proof.
  unfold safe_div, py_truediv.
  destruct a as [|za|xa], b as [|zb|xb]; try reflexivity;
    cbn -[fdiv feqb is_nan];
    (destruct (feqb _ _); cbn -[fdiv is_nan]; [reflexivity|]);
    destruct (is_nan _); reflexivity.
Qed.

(** C6 (amended): [safe_div] never raises; it returns NaN when an operand
    is [None] or NaN or when [b] is zero; otherwise it returns the IEEE
    quotient, which is [a/b] on finite operands.  An infinite operand is
    not turned into NaN. *)
Theorem safe_div_total_quotient (a b : pyval) :
  (exists v, safe_div a b = Ok v) /\
  (isna a = true \/ isna b = true \/
   (exists q, as_fl b = Some (Fin q) /\ q == 0) ->
   safe_div a b = Ok NaN) /\
  (forall x y, as_fl a = Some x -> as_fl b = Some y ->
     is_nan y = false -> feqb y (Fin 0) = false ->
     safe_div a b = Ok (x / y)%fl) /\
  (forall p q, as_fl a = Some (Fin p) -> as_fl b = Some (Fin q) -> ~ q == 0 ->
     safe_div a b = Ok (Fin (p / q))).
Proof.
  rewrite safe_div_value. repeat split.
  - eauto.
  - intros H.
    destruct (as_fl a) as [x|] eqn:Ea; [|reflexivity].
    destruct (as_fl b) as [y|] eqn:Eb; [|reflexivity].
    destruct H as [Ha | [Hb | Hb]].
    + destruct a as [| |[]]; simpl in *; try discriminate.
      injection Ea as <-. by destruct (_ || _).
    + destruct b as [| |[]]; simpl in *; try discriminate.
      injection Eb as <-. by rewrite orb_true_r.
    + destruct Hb as (q & Hb & Hq). injection Hb as ->. simpl.
      apply Qeq_bool_iff in Hq. by rewrite Hq.
  - intros x y -> -> Hn Hz. by rewrite Hn, Hz.
  - intros p q -> -> Hq. simpl.
    apply Qeq_bool_false in Hq. by rewrite Hq.
Qed.

(** ** The ten-year yield *)

(** C7: an override is returned as it is, whatever the provider holds, and
    the provider is not queried (the log is unchanged); without an override
    the result is the last ^TNX close divided by 100; it is NaN when the
    provider raises or returns no close. *)
Theorem ten_year_resolution (macro_ovr : gmap string pyval) (prov : provider)
    (log : list string) :
  (forall v, macro_ovr !! "ten_year_yield"%string = Some v -> v <> PNone ->
     resolve_ten_year macro_ovr prov log = (v, log)) /\
  (dict_get macro_ovr "ten_year_yield" = PNone ->
     (forall s x, prov "^TNX"%string = Ok s -> last s = Some x ->
        resolve_ten_year macro_ovr prov log
        = (PFloat (x / Fin 100)%fl, log ++ ["^TNX"%string])) /\
     (prov "^TNX"%string = Ok [] \/ (exists e, prov "^TNX"%string = Raise e) ->
        resolve_ten_year macro_ovr prov log
        = (PFloat NaN, log ++ ["^TNX"%string]))).
Proof.
  unfold resolve_ten_year, dict_get. split.
  - intros v Hv Hne. rewrite Hv. simpl.
    destruct v; [congruence | reflexivity | reflexivity].
  - intros ->. simpl.
    unfold bind_M, get_macro_proxy, history, ret_M. simpl. split.
    + intros s x -> ->. reflexivity.
    + intros [-> | [e ->]]; reflexivity.
Qed.

(** ** Price to free cash flow *)

(** C10: [p_to_fcf] is NaN when the free cash flow is NaN or not strictly
    positive; when it is positive, [p_to_fcf] is [safe_div(mcap, fcf)],
    the quotient market cap / FCF for a numeric market cap. *)
Theorem p_to_fcf_positive_fcf_only (mcap : pyval) (fcf : fl) :
  (is_nan fcf = true \/ fgtb fcf (Fin 0) = false -> p_to_fcf mcap fcf = Ok NaN) /\
  (fgtb fcf (Fin 0) = true -> p_to_fcf mcap fcf = safe_div mcap (PFloat fcf)) /\
  (forall m f, as_fl mcap = Some (Fin m) -> fcf = Fin f -> 0 < f ->
     p_to_fcf mcap fcf = Ok (Fin (m / f))).
Proof.
  unfold p_to_fcf, notna. repeat split.
  - intros [H | H].
    + by rewrite H.
    + rewrite H. by rewrite andb_false_r.
  - intros H. rewrite H. destruct fcf; try discriminate; reflexivity.
  - intros m f Hm -> Hf.
    assert (Hgt : fgtb (Fin f) (Fin 0) = true).
    { unfold fgtb, fltb. apply negb_true_iff, Qle_bool_false. exact Hf. }
    rewrite Hgt. simpl. rewrite safe_div_value, Hm. simpl.
    assert (Hz : Qeq_bool f 0 = false) by (apply Qeq_bool_false; lra).
    by rewrite Hz.
Qed.

(** ** Free cash flow *)

(** Python's [or] keeps a NaN, which is true: an undefined operand leaves
    the free cash flow undefined. *)
Lemma fcf_of_nan (ocf capex : fl) :
  is_nan ocf = true \/ is_nan capex = true -> fcf_of ocf capex = NaN.
Proof.
  unfold fcf_of. intros [H | H]; apply is_nan_true in H; subst.
  - reflexivity.
  - simpl. unfold fsub. simpl. apply fadd_nan_r.
Qed.

(** [x or 0] is the float [x] itself, as a value. *)
Lemma fl_or0_feq (x : fl) : feq (fl_or0 x) x.
Proof.
  unfold fl_or0. destruct x; simpl; try exact I.
  destruct (Qeq_bool q 0) eqn:E; simpl; qbool; [by symmetry | reflexivity].
Qed.

(** ** Invested capital *)

(** The formula when every operand is defined and the subtracted ones are
    not zero-valued floats in disguise: with finite operands the value is
    (TA - CL) - (cash + STI) - (goodwill + intangibles). *)
Lemma invested_cap_formula (a l c s g i : Q) :
  feq (invested_cap (Fin a) (Fin l) (Fin c) (Fin s) (Fin g) (Fin i))
      (Fin ((a - l) - (c + s) - (g + i))).
Proof.
  unfold invested_cap, fl_or0, fl_truthy. simpl.
  destruct (Qeq_bool c 0) eqn:Ec, (Qeq_bool s 0) eqn:Es,
           (Qeq_bool g 0) eqn:Eg, (Qeq_bool i 0) eqn:Ei;
    simpl; qbool; lra.
Qed.

(** A missing Total Assets or Current Liabilities leaves the period
    undefined. *)
Lemma invested_cap_needs_ta_cl (ta cl cash sti gw inta : fl) :
  is_nan ta = true \/ is_nan cl = true ->
  invested_cap ta cl cash sti gw inta = NaN.
Proof.
  unfold invested_cap.
  intros [H | H]; apply is_nan_true in H; subst.
  - destruct (is_nan cl); reflexivity.
  - destruct (is_nan ta && is_nan NaN); [reflexivity|].
    unfold fsub at 3. simpl. rewrite fadd_nan_r. reflexivity.
Qed.

(** An undefined subtracted component leaves the period undefined as well:
    [cash or 0] is NaN for a NaN cash. *)
Lemma invested_cap_nan_component (ta cl cash sti gw inta : fl) :
  is_nan cash = true \/ is_nan sti = true \/ is_nan gw = true \/ is_nan inta = true ->
  invested_cap ta cl cash sti gw inta = NaN.
Proof.
  unfold invested_cap. intros H.
  destruct (is_nan ta && is_nan cl); [reflexivity|].
  destruct H as [H | [H | [H | H]]]; apply is_nan_true in H; subst; simpl;
    unfold fsub; simpl;
    rewrite ?fadd_nan_r; simpl; rewrite ?fadd_nan_r; reflexivity.
Qed.

(** ** Growth proxy *)

Lemma frame_empty_false (f : frame) (label : string) (x : fl) (s : list fl) :
  f !! label = Some (x :: s) -> frame_empty f = false.
Proof.
  intros H. unfold frame_empty. apply bool_decide_eq_false.
  intros HF. specialize (HF _ _ H). discriminate.
Qed.

(** What the revenue CAGR is computed from: the latest observation, the
    one after it (position 1, which [-years] designates among [years + 1]
    observations), over one year less than the observations. *)
Lemma growth_rev_second_latest (f : frame) (s rest : list fl) (r0 r1 : fl) :
  f !! revenue_label = Some s ->
  dropna (take 4 s) = r0 :: r1 :: rest ->
  growth_rev (Some f)
  = cagr (PFloat r1) (PFloat r0) (Z.of_nat (length rest) + 1).
Proof.
  intros Hs Hd. unfold growth_rev.
  assert (Hne : frame_empty f = false).
  { destruct s as [|x s']; [discriminate Hd|]. eapply frame_empty_false, Hs. }
  rewrite Hne. unfold loc. rewrite Hs. cbn [mbind result_bind].
  rewrite Hd. cbn [length Nat.leb].
  replace (Z.of_nat (S (S (length rest))) - 1)%Z
    with (Z.of_nat (length rest) + 1)%Z by lia.
  unfold iloc. cbn [length].
  replace (-1 * (Z.of_nat (length rest) + 1) <? 0)%Z with true
    by (symmetry; apply Z.ltb_lt; lia).
  replace (-1 * (Z.of_nat (length rest) + 1) + Z.of_nat (S (S (length rest))))%Z
    with 1%Z by lia.
  replace (1 <? Z.of_nat (S (S (length rest))))%Z with true
    by (symmetry; apply Z.ltb_lt; lia).
  replace (0 <? Z.of_nat (S (S (length rest))))%Z with true
    by (symmetry; apply Z.ltb_lt; lia).
  reflexivity.
Qed.

(** With two observations the one after the latest is the earliest: code
    and specification agree. *)
Lemma growth_rev_two_observations (f : frame) (s : list fl) (r0 r1 : fl) :
  f !! revenue_label = Some s ->
  dropna (take 4 s) = [r0; r1] ->
  growth_rev (Some f) = growth_rev_spec s.
Proof.
  intros Hs Hd. rewrite (growth_rev_second_latest f s [] r0 r1 Hs Hd).
  unfold growth_rev_spec. rewrite Hd. reflexivity.
Qed.

(** C2, the code against the claim: of four yearly revenues 800, 400, 200,
    100 (latest first) the code takes the growth from 400 to 800 over three
    years, the claim the growth from the earliest, 100, to 800. *)
Theorem growth_rev_not_from_earliest :
  growth_rev (Some is_four_years)
  = cagr (PFloat (Fin 400)) (PFloat (Fin 800)) 3 /\
  growth_rev_spec [Fin 800; Fin 400; Fin 200; Fin 100]
  = cagr (PFloat (Fin 100)) (PFloat (Fin 800)) 3 /\
  growth_proxy PNone (Some is_four_years)
  = positive_growth (PFloat (cagr (PFloat (Fin 400)) (PFloat (Fin 800)) 3)).
Proof.
  assert (H : growth_rev (Some is_four_years)
              = cagr (PFloat (Fin 400)) (PFloat (Fin 800)) 3).
  { apply (growth_rev_second_latest is_four_years
             [Fin 800; Fin 400; Fin 200; Fin 100] [Fin 200; Fin 100]);
      reflexivity. }
  split; [exact H|]. split; [reflexivity|].
  unfold growth_proxy, growth_of. simpl is_none. simpl orb. cbv iota.
  by rewrite H.
Qed.

(** The growth proxy is NaN or strictly positive. *)
Lemma positive_growth_nan_or_positive (growth : pyval) :
  positive_growth growth = NaN \/ fgtb (positive_growth growth) (Fin 0) = true.
Proof.
  unfold positive_growth, fgtb.
  destruct growth as [|z|[| | |q]]; cbn -[Qle_bool]; auto;
    destruct (Qle_bool _ 0) eqn:E; cbn -[Qle_bool]; auto;
    rewrite E; auto.
Qed.

(** A growth value that is zero or negative is turned into NaN. *)
Lemma positive_growth_nonpositive (growth : pyval) (x : fl) :
  as_fl growth = Some x -> fleb x (Fin 0) = true ->
  positive_growth growth = NaN.
Proof.
  unfold positive_growth. intros Hx H.
  destruct growth as [|z|y]; cbn -[fleb] in *; [discriminate| |];
    injection Hx as <-.
  - by rewrite H.
  - destruct (is_nan y) eqn:E; cbn -[fleb]; [reflexivity|].
    unfold notna. by rewrite E, H.
Qed.

(** ** PEG and PEGY *)

(** C8: PEG is NaN unless an effective P/E is present and the growth proxy
    is positive; a growth below 1 is multiplied by 100 before the P/E is
    divided by it, a growth of 1 or more divides it directly; with P/E 20,
    growth 0.10 and dividend yield 0.02, PEG is 2 and PEGY is 20/12. *)
Theorem PEG_needs_pe_and_positive_growth (pe_eff growth : pyval) :
  let g := positive_growth growth in
  (PEG pe_eff g <> NaN ->
     (exists pe, as_fl pe_eff = Some pe /\ pe <> NaN) /\
     fgtb g (Fin 0) = true) /\
  (forall pe, as_fl pe_eff = Some pe -> truthy pe_eff = true ->
     fgtb g (Fin 0) = true ->
     (fltb g (Fin 1) = true -> PEG pe_eff g = (pe / (g * Fin 100))%fl) /\
     (fltb g (Fin 1) = false -> PEG pe_eff g = (pe / g)%fl)) /\
  (let g10 := positive_growth (PFloat (Fin 0.10)) in
   feq (PEG (PFloat (Fin 20)) g10) (Fin 2) /\
   exists y, PEGY (PFloat (Fin 20)) g10 (PFloat (Fin 0.02)) = Ok (PFloat (Fin y)) /\
             y == 20 / 12).
Proof.
  intros g. split; [|split].
  - unfold PEG. intros H.
    destruct (truthy pe_eff && fl_truthy g); [|congruence].
    destruct (as_fl pe_eff) as [pe|]; [|congruence].
    assert (Hd : pe <> NaN /\ g <> NaN).
    { destruct (fltb g (Fin 1)).
      - apply fdiv_notna in H as [H1 H2]. apply fmul_notna in H2 as [H2 _]. auto.
      - by apply fdiv_notna in H. }
    destruct Hd as [Hpe Hg]. split; [eauto|].
    destruct (positive_growth_nan_or_positive growth) as [E | E]; [|exact E].
    contradiction.
  - intros pe Hpe Ht Hg. unfold PEG. rewrite Ht, Hpe.
    assert (Hgt : fl_truthy g = true).
    { destruct g as [| | |q]; try reflexivity.
      unfold fgtb, fltb in Hg. apply negb_true_iff in Hg. qbool.
      simpl. apply negb_true_iff, Qeq_bool_false. lra. }
    rewrite Hgt. simpl. split; intros ->; reflexivity.
  - split; [reflexivity|]. eexists. split; [reflexivity|reflexivity].
Qed.

(** ** Series *)

Lemma dropna_notna (s : list fl) : Forall (fun x => x <> NaN) (dropna s).
Proof.
  unfold dropna. apply List.Forall_forall. intros x Hx.
  apply filter_In in Hx as [_ Hx]. unfold notna in Hx.
  apply negb_true_iff, is_nan_false in Hx. exact Hx.
Qed.

Lemma in_dropna (s : list fl) (x : fl) : In x s -> x <> NaN -> In x (dropna s).
Proof.
  intros Hin Hx. unfold dropna. apply filter_In. split; [exact Hin|].
  unfold notna. apply negb_true_iff, is_nan_false, Hx.
Qed.

Lemma length_col (f : metrics -> fl) (df : list row) : length (col f df) = length df.
Proof. unfold col. apply length_map. Qed.

Lemma length_zscore (s : list fl) : length (zscore s) = length s.
Proof. unfold zscore. apply length_map. Qed.

Lemma length_pos_clip (s : list fl) : length (pos_clip s) = length s.
Proof. unfold pos_clip. apply length_map. Qed.

Lemma length_scale (w : Q) (s : list fl) : length (scale w s) = length s.
Proof. unfold scale. apply length_map. Qed.

Lemma length_sneg (s : list fl) : length (sneg s) = length s.
Proof. unfold sneg. apply length_map. Qed.

Lemma length_sinv (s : list fl) : length (sinv s) = length s.
Proof. unfold sinv. apply length_map. Qed.

Lemma length_sadd (s t : list fl) (n : nat) :
  length s = n -> length t = n -> length (sadd s t) = n.
Proof. unfold sadd. intros Hs Ht. rewrite length_zip_with. lia. Qed.

Lemma length_ip_boost (ipz score : list fl) (n : nat) :
  length ipz = n -> length score = n -> length (ip_boost ipz score) = n.
Proof.
  unfold ip_boost. intros Hz Hs.
  rewrite length_zip_with, length_zip, length_pos_clip. lia.
Qed.

(** Every column computed from a frame has one entry per row. *)
Ltac series_length :=
  repeat first
    [ apply length_sadd
    | apply length_ip_boost
    | rewrite length_scale
    | rewrite length_sneg
    | rewrite length_zscore
    | rewrite length_pos_clip
    | rewrite length_sinv
    | apply length_col ].

Lemma length_buffett_raw df : length (buffett_raw df) = length df.
Proof. unfold buffett_raw. series_length. Qed.

Lemma length_lynch_raw df : length (lynch_raw df) = length df.
Proof. unfold lynch_raw, inv_PEG, inv_PEGY. series_length. Qed.

Lemma length_icahn_raw df : length (icahn_raw df) = length df.
Proof. unfold icahn_raw, inv_p_to_fcf. series_length. Qed.

Lemma length_soros_raw df : length (soros_raw df) = length df.
Proof. unfold soros_raw, inv_p_to_fcf. series_length. Qed.

Lemma length_simons_raw df : length (simons_raw df) = length df.
Proof. unfold simons_raw. series_length. Qed.

Lemma length_ip_z df : length (ip_z df) = length df.
Proof. unfold ip_z. series_length. Qed.

Lemma length_buffett_score df : length (buffett_score df) = length df.
Proof.
  unfold buffett_score. apply length_ip_boost;
    [apply length_ip_z | rewrite length_pos_clip; apply length_buffett_raw].
Qed.

Lemma length_simons_score df : length (simons_score df) = length df.
Proof.
  unfold simons_score. apply length_ip_boost;
    [apply length_ip_z | rewrite length_pos_clip; apply length_simons_raw].
Qed.

Lemma length_lynch_score df : length (lynch_score df) = length df.
Proof. unfold lynch_score. rewrite length_pos_clip. apply length_lynch_raw. Qed.

Lemma length_icahn_score df : length (icahn_score df) = length df.
Proof. unfold icahn_score. rewrite length_pos_clip. apply length_icahn_raw. Qed.

Lemma length_soros_score df : length (soros_score df) = length df.
Proof. unfold soros_score. rewrite length_pos_clip. apply length_soros_raw. Qed.

Lemma length_meta_score df : length (meta_score df) = length df.
Proof.
  unfold meta_score.
  repeat first [apply length_sadd | rewrite length_scale];
    auto using length_buffett_score, length_lynch_score, length_icahn_score,
      length_soros_score, length_simons_score.
Qed.

(** *** NaN goes through the series arithmetic *)

Lemma col_lookup (f : metrics -> fl) (df : list row) (i : nat) (r : row) :
  df !! i = Some r -> col f df !! i = Some (f (metric r)).
Proof. intros H. unfold col. by rewrite list_lookup_fmap, H. Qed.

Lemma zscore_nan (s : list fl) (i : nat) :
  s !! i = Some NaN -> zscore s !! i = Some NaN.
Proof. intros H. unfold zscore. by rewrite list_lookup_fmap, H. Qed.

Lemma sinv_nan (s : list fl) (i : nat) :
  s !! i = Some NaN -> sinv s !! i = Some NaN.
Proof. intros H. unfold sinv. by rewrite list_lookup_fmap, H. Qed.

Lemma sneg_nan (s : list fl) (i : nat) :
  s !! i = Some NaN -> sneg s !! i = Some NaN.
Proof. intros H. unfold sneg. by rewrite list_lookup_fmap, H. Qed.

Lemma scale_nan (w : Q) (s : list fl) (i : nat) :
  s !! i = Some NaN -> scale w s !! i = Some NaN.
Proof. intros H. unfold scale. by rewrite list_lookup_fmap, H. Qed.

Lemma sadd_nan_l (s t : list fl) (i : nat) :
  s !! i = Some NaN -> (i < length t)%nat -> sadd s t !! i = Some NaN.
Proof.
  intros H Hi. unfold sadd. rewrite lookup_zip_with, H. simpl.
  destruct (lookup_lt_is_Some_2 t i Hi) as [y ->]. reflexivity.
Qed.

Lemma sadd_nan_r (s t : list fl) (i : nat) :
  t !! i = Some NaN -> (i < length s)%nat -> sadd s t !! i = Some NaN.
Proof.
  intros H Hi. unfold sadd. rewrite lookup_zip_with, H.
  destruct (lookup_lt_is_Some_2 s i Hi) as [x ->]. simpl.
  by rewrite fadd_nan_r.
Qed.

(** ** Sub-score sums with an undefined component *)

(** The sum of a row is NaN as soon as one summand is. *)
Ltac nan_summand Hrow :=
  lazymatch goal with
  | |- col _ _ !! _ = Some NaN =>
      rewrite (col_lookup _ _ _ _ Hrow); congruence
  | |- scale _ _ !! _ = Some NaN => apply scale_nan; nan_summand Hrow
  | |- sneg _ !! _ = Some NaN => apply sneg_nan; nan_summand Hrow
  | |- zscore _ !! _ = Some NaN => apply zscore_nan; nan_summand Hrow
  | |- sinv _ !! _ = Some NaN => apply sinv_nan; nan_summand Hrow
  | |- sadd _ _ !! _ = Some NaN =>
      first
        [ solve [ apply sadd_nan_r; [nan_summand Hrow | row_in_range Hrow] ]
        | solve [ apply sadd_nan_l; [nan_summand Hrow | row_in_range Hrow] ] ]
  end
with row_in_range Hrow :=
  lazymatch type of Hrow with
  | ?df !! _ = Some _ =>
      lazymatch goal with
      | |- (_ < length ?s)%nat =>
          replace (length s) with (length df)
            by (symmetry; series_length);
          exact (lookup_lt_Some _ _ _ Hrow)
      end
  end.

(** C1 (amended): in each of the five sub-score sums no summand is omitted;
    the sum of a row is NaN as soon as one component of that sub-score is
    NaN for the row. *)
Theorem weighted_sum_nan_component (df : list row) (i : nat) (r : row) :
  df !! i = Some r ->
  (Exists (fun f => f (metric r) = NaN)
     [roic_est; fcf_margin; fcf_yield; ebit_margin; net_debt; interest_coverage] ->
   buffett_raw df !! i = Some NaN) /\
  (Exists (fun f => f (metric r) = NaN)
     [PEG_col; PEGY_col; growth_proxy_col; net_debt] ->
   lynch_raw df !! i = Some NaN) /\
  (Exists (fun f => f (metric r) = NaN)
     [cash_to_mcap; p_to_fcf_col; shares_chg_3y; net_debt] ->
   icahn_raw df !! i = Some NaN) /\
  (Exists (fun f => f (metric r) = NaN)
     [p_to_fcf_col; macro_sensitivity; interest_coverage] ->
   soros_raw df !! i = Some NaN) /\
  (Exists (fun f => f (metric r) = NaN)
     [weekly_ac; vol_clust; ret_pred] ->
   simons_raw df !! i = Some NaN).
Proof.
  intros Hrow.
  unfold buffett_raw, lynch_raw, icahn_raw, soros_raw, simons_raw,
    inv_PEG, inv_PEGY, inv_p_to_fcf.
  repeat split; intros HE;
    repeat (apply Exists_cons in HE as [HE | HE]);
    try (by apply Exists_nil in HE);
    nan_summand Hrow.
Qed.

(** *** The sums of rows with every component

    On columns without infinities the quality and quant sums of a row are
    defined when all of the row's components are: the sums are undefined
    for the rows with an undefined component, and for no other row. *)

Hypothesis sqrtQ_nonneg : forall q, 0 <= q -> 0 <= sqrtQ q.

Lemma Qsquare_nonneg (t : Q) : 0 <= t * t.
Proof. nra. Qed.

Lemma fold_fadd_fin (xs : list fl) (a : Q) :
  Forall (fun x => is_finite x = true) xs ->
  exists q, fold_left fadd xs (Fin a) = Fin q.
Proof.
  revert a. induction xs as [|x xs IH]; intros a Hxs; simpl; [eauto|].
  apply Forall_cons in Hxs as [Hx Hxs].
  destruct x; try discriminate. simpl. by apply IH.
Qed.

Lemma fold_fadd_nonneg (xs : list fl) (a : Q) :
  0 <= a ->
  Forall (fun x => exists q, x = Fin q /\ 0 <= q) xs ->
  exists q, fold_left fadd xs (Fin a) = Fin q /\ 0 <= q.
Proof.
  revert a. induction xs as [|x xs IH]; intros a Ha Hxs; simpl; [eauto|].
  apply Forall_cons in Hxs as [(q & -> & Hq) Hxs].
  simpl. apply IH; [lra | exact Hxs].
Qed.

Lemma dropna_finite (s : list fl) :
  finite_column s -> Forall (fun x => is_finite x = true) (dropna s).
Proof.
  intros Hs. apply List.Forall_forall. intros x Hx.
  apply filter_In in Hx as [Hin Hx].
  unfold finite_column in Hs.
  rewrite List.Forall_forall in Hs. destruct (Hs x Hin) as [-> | H];
    [discriminate Hx | exact H].
Qed.

Lemma count_positive (xs : list fl) (x : fl) :
  In x xs -> exists n, count xs = Fin n /\ 0 < n.
Proof.
  intros Hin. unfold count. eexists. split; [reflexivity|].
  destruct xs as [|y ys]; [destruct Hin|].
  unfold Qlt. simpl. lia.
Qed.

Lemma fdiv_fin (a b : Q) : ~ b == 0 -> (Fin a / Fin b)%fl = Fin (a / b).
Proof. intros H. simpl. apply Qeq_bool_false in H. by rewrite H. Qed.

Lemma nanmean_finite (s : list fl) (x : Q) :
  finite_column s -> In (Fin x) s -> exists m, nanmean s = Fin m.
Proof.
  intros Hs Hin. unfold nanmean.
  destruct (fold_fadd_fin (dropna s) 0 (dropna_finite s Hs)) as [q Hq].
  assert (Hd : In (Fin x) (dropna s)) by (by apply in_dropna).
  destruct (count_positive _ _ Hd) as (n & Hn & Hpos).
  unfold fsum. rewrite Hq, Hn, fdiv_fin; [eauto | lra].
Qed.

Lemma nanstd_finite (s : list fl) (x : Q) :
  finite_column s -> In (Fin x) s -> exists d, nanstd s = Fin d /\ 0 <= d.
Proof.
  intros Hs Hin. unfold nanstd.
  pose proof (dropna_finite s Hs) as Hf.
  destruct (fold_fadd_fin (dropna s) 0 Hf) as [q Hq].
  assert (Hd : In (Fin x) (dropna s)) by (by apply in_dropna).
  destruct (count_positive _ _ Hd) as (n & Hn & Hpos).
  unfold fsum. rewrite Hq, Hn, fdiv_fin; [|lra].
  destruct (fold_fadd_nonneg
              (map (fun y => ((y - Fin (q / n)) * (y - Fin (q / n)))%fl) (dropna s))
              0 (Qle_refl 0)) as (v & Hv & Hv0).
  { apply List.Forall_forall. intros y Hy.
    apply in_map_iff in Hy as (z & <- & Hz).
    rewrite List.Forall_forall in Hf. specialize (Hf z Hz).
    destruct z as [| | |z]; try discriminate.
    eexists. split; [reflexivity|]. apply Qsquare_nonneg. }
  rewrite Hv, fdiv_fin; [|lra]. simpl.
  assert (Hvn : 0 <= v / n) by (apply Qle_shift_div_l; lra).
  apply Qle_bool_iff in Hvn as Hb. rewrite Hb. eauto.
Qed.

Lemma zscore_finite (s : list fl) (i : nat) (x : Q) :
  finite_column s -> s !! i = Some (Fin x) ->
  exists z, zscore s !! i = Some (Fin z).
Proof.
  intros Hs Hx. unfold zscore. rewrite list_lookup_fmap, Hx. simpl.
  apply list_elem_of_lookup_2, list_elem_of_In in Hx.
  destruct (nanmean_finite s x Hs Hx) as [m ->].
  destruct (nanstd_finite s x Hs Hx) as (d & -> & Hd).
  unfold eps9. cbn [fsub fopp fadd]. rewrite fdiv_fin; [eauto | lra].
Qed.

Lemma scale_fin (w : Q) (s : list fl) (i : nat) :
  (exists z, s !! i = Some (Fin z)) -> exists z, scale w s !! i = Some (Fin z).
Proof.
  intros [z Hz]. unfold scale. rewrite list_lookup_fmap, Hz. simpl. eauto.
Qed.

Lemma sneg_fin (s : list fl) (i : nat) :
  (exists z, s !! i = Some (Fin z)) -> exists z, sneg s !! i = Some (Fin z).
Proof.
  intros [z Hz]. unfold sneg. rewrite list_lookup_fmap, Hz. simpl. eauto.
Qed.

Lemma sadd_fin (s t : list fl) (i : nat) :
  (exists z, s !! i = Some (Fin z)) -> (exists z, t !! i = Some (Fin z)) ->
  exists z, sadd s t !! i = Some (Fin z).
Proof.
  intros [a Ha] [b Hb]. unfold sadd. rewrite lookup_zip_with, Ha, Hb.
  simpl. eauto.
Qed.

Lemma zscore_col_finite (f : metrics -> fl) (df : list row) (i : nat) (r : row) :
  finite_column (col f df) -> df !! i = Some r -> is_finite (f (metric r)) = true ->
  exists z, zscore (col f df) !! i = Some (Fin z).
Proof.
  intros Hc Hr Hf. destruct (f (metric r)) as [| | |x] eqn:E; try discriminate.
  apply (zscore_finite _ i x Hc). by rewrite (col_lookup f df i r Hr), E.
Qed.

Lemma buffett_raw_defined (df : list row) (i : nat) (r : row) :
  df !! i = Some r ->
  Forall (fun f => finite_column (col f df) /\ is_finite (f (metric r)) = true)
    [roic_est; fcf_margin; fcf_yield; ebit_margin; net_debt; interest_coverage] ->
  exists v, buffett_raw df !! i = Some (Fin v).
Proof.
  intros Hr H.
  repeat (apply Forall_cons in H; destruct H as [[? ?] H]).
  unfold buffett_raw.
  repeat first [apply sadd_fin | apply scale_fin | apply sneg_fin];
    by apply (zscore_col_finite _ df i r).
Qed.

Lemma simons_raw_defined (df : list row) (i : nat) (r : row) :
  df !! i = Some r ->
  Forall (fun f => finite_column (col f df) /\ is_finite (f (metric r)) = true)
    [weekly_ac; vol_clust; ret_pred] ->
  exists v, simons_raw df !! i = Some (Fin v).
Proof.
  intros Hr H.
  repeat (apply Forall_cons in H; destruct H as [[? ?] H]).
  unfold simons_raw.
  repeat first [apply sadd_fin | apply scale_fin | apply sneg_fin];
    by apply (zscore_col_finite _ df i r).
Qed.

(** ** Rescaling to 0..100 *)

Lemma fleb_refl (x : fl) : x <> NaN -> fleb x x = true.
Proof.
  destruct x; simpl; try congruence; intros _.
  apply Qle_bool_iff. lra.
Qed.

Lemma fleb_trans (x y z : fl) :
  fleb x y = true -> fleb y z = true -> fleb x z = true.
Proof.
  destruct x, y, z; simpl; try congruence.
  intros H1 H2. qbool. apply Qle_bool_iff. lra.
Qed.

Lemma fleb_total (x y : fl) :
  x <> NaN -> y <> NaN -> fleb x y = false -> fleb y x = true.
Proof.
  destruct x, y; simpl; try congruence.
  intros _ _ H. qbool. apply Qle_bool_iff. lra.
Qed.

(** The running minimum is below its start and below every entry seen. *)
Lemma fold_fmin_below (xs : list fl) (acc : fl) :
  acc <> NaN -> Forall (fun x => x <> NaN) xs ->
  let m := fold_left fmin xs acc in
  m <> NaN /\ fleb m acc = true /\ Forall (fun x => fleb m x = true) xs.
Proof.
  revert acc. induction xs as [|y xs IH]; intros acc Hacc Hxs; simpl.
  - repeat split; [exact Hacc | by apply fleb_refl | constructor].
  - apply Forall_cons in Hxs as [Hy Hxs].
    assert (Hm : fmin acc y <> NaN) by (unfold fmin; destruct (fleb y acc); auto).
    destruct (IH (fmin acc y) Hm Hxs) as (H1 & H2 & H3).
    assert (Ha : fleb (fmin acc y) acc = true).
    { unfold fmin. destruct (fleb y acc) eqn:E; [exact E | by apply fleb_refl]. }
    assert (Hb : fleb (fmin acc y) y = true).
    { unfold fmin. destruct (fleb y acc) eqn:E;
        [by apply fleb_refl | by apply fleb_total]. }
    repeat split; [exact H1 | eapply fleb_trans; eassumption |].
    constructor; [eapply fleb_trans; eassumption | exact H3].
Qed.

Lemma fold_fmax_above (xs : list fl) (acc : fl) :
  acc <> NaN -> Forall (fun x => x <> NaN) xs ->
  let m := fold_left fmax xs acc in
  m <> NaN /\ fleb acc m = true /\ Forall (fun x => fleb x m = true) xs.
Proof.
  revert acc. induction xs as [|y xs IH]; intros acc Hacc Hxs; simpl.
  - repeat split; [exact Hacc | by apply fleb_refl | constructor].
  - apply Forall_cons in Hxs as [Hy Hxs].
    assert (Hm : fmax acc y <> NaN) by (unfold fmax; destruct (fleb acc y); auto).
    destruct (IH (fmax acc y) Hm Hxs) as (H1 & H2 & H3).
    assert (Ha : fleb acc (fmax acc y) = true).
    { unfold fmax. destruct (fleb acc y) eqn:E; [exact E | by apply fleb_refl]. }
    assert (Hb : fleb y (fmax acc y) = true).
    { unfold fmax. destruct (fleb acc y) eqn:E;
        [by apply fleb_refl | by apply fleb_total]. }
    repeat split; [exact H1 | eapply fleb_trans; eassumption |].
    constructor; [eapply fleb_trans; eassumption | exact H3].
Qed.

(** [np.nanmin] and [np.nanmax] bound every defined entry of the column. *)
Lemma nanmin_nanmax_bound (s : list fl) (x : fl) :
  In x s -> x <> NaN ->
  fleb (nanmin s) x = true /\ fleb x (nanmax s) = true.
Proof.
  intros Hin Hx. pose proof (in_dropna s x Hin Hx) as Hd.
  pose proof (dropna_notna s) as Hn.
  unfold nanmin, nanmax. destruct (dropna s) as [|y ys]; [destruct Hd|].
  apply Forall_cons in Hn as [Hy Hys].
  destruct (fold_fmin_below ys y Hy Hys) as (_ & Hlo & Hlos).
  destruct (fold_fmax_above ys y Hy Hys) as (_ & Hhi & Hhis).
  destruct Hd as [<- | Hd]; [by split|].
  rewrite List.Forall_forall in Hlos, Hhis. split; [by apply Hlos | by apply Hhis].
Qed.

(** One entry of [pos_clip]: NaN, or a value between 0 and 100. *)
Lemma pos_clip_entry (lo hi x : fl) :
  fleb lo x = true -> fleb x hi = true ->
  let v := (Fin 100 * (x - lo) / (hi - lo + eps9))%fl in
  v <> NaN -> in_0_100 v.
Proof.
  unfold eps9.
  destruct lo as [| | |a], hi as [| | |b], x as [| | |q]; simpl;
    try congruence; try (intros _ _ []; reflexivity);
    try (intros _ _ _; split; [lra | lra]).
  intros Hlo Hhi. qbool.
  destruct (Qeq_bool (b + - a + 0.000000001) 0) eqn:E; qbool; [lra|].
  intros _. simpl. split.
  - apply Qle_shift_div_l; lra.
  - apply Qle_shift_div_r; lra.
Qed.

Lemma pos_clip_range (s : list fl) (i : nat) (v : fl) :
  pos_clip s !! i = Some v -> v <> NaN -> in_0_100 v.
Proof.
  unfold pos_clip. rewrite list_lookup_fmap.
  destruct (s !! i) as [x|] eqn:Hx; [|discriminate].
  simpl. intros [= <-] Hv.
  assert (Hxn : x <> NaN).
  { intros ->. apply Hv. reflexivity. }
  apply list_elem_of_lookup_2, list_elem_of_In in Hx.
  destruct (nanmin_nanmax_bound s x Hx Hxn) as [Hlo Hhi].
  by apply pos_clip_entry.
Qed.

(** ** Scores *)

Lemma in_0_100_fin (x : fl) : in_0_100 x -> exists q, x = Fin q /\ 0 <= q /\ q <= 100.
Proof. destruct x; simpl; try tauto. eauto. Qed.

(** The 0.9 / 0.1 blend of two values of [0, 100] is in [0, 100]. *)
Lemma blend_range (s p : fl) :
  (s <> NaN -> in_0_100 s) -> (p <> NaN -> in_0_100 p) ->
  let v := (s * Fin 0.9 + p * Fin 0.1)%fl in
  v <> NaN -> in_0_100 v.
Proof.
  intros Hs Hp v Hv. subst v.
  destruct (fadd_notna _ _ Hv) as [H1 H2].
  apply fmul_notna in H1 as [H1 _]. apply fmul_notna in H2 as [H2 _].
  destruct (in_0_100_fin _ (Hs H1)) as (a & -> & Ha).
  destruct (in_0_100_fin _ (Hp H2)) as (b & -> & Hb).
  simpl. lra.
Qed.

Lemma ip_boost_range (ipz score : list fl) (i : nat) (v : fl) :
  (forall s, score !! i = Some s -> s <> NaN -> in_0_100 s) ->
  ip_boost ipz score !! i = Some v -> v <> NaN -> in_0_100 v.
Proof.
  intros Hscore. unfold ip_boost. rewrite lookup_zip_with.
  destruct (zip ipz (pos_clip ipz) !! i) as [[z p]|] eqn:Hzp; [|discriminate].
  destruct (score !! i) as [s|] eqn:Hs; [|discriminate].
  simpl. intros [= <-] Hv.
  destruct (is_nan z); [by apply Hscore|].
  rewrite lookup_zip_with in Hzp.
  destruct (ipz !! i); [|discriminate].
  destruct (pos_clip ipz !! i) as [p'|] eqn:Hp; [|discriminate].
  simpl in Hzp. injection Hzp as _ ->.
  apply blend_range; [by apply Hscore | by apply (pos_clip_range ipz i) | exact Hv].
Qed.

(** The meta-score weights add up to 1: the meta-score is a convex
    combination of the five sub-scores. *)
Lemma meta_weights : 0.25 + 0.20 + 0.20 + 0.15 + 0.20 == 1.
Proof. reflexivity. Qed.

Lemma meta_range (b l c s q : fl) :
  (b <> NaN -> in_0_100 b) -> (l <> NaN -> in_0_100 l) ->
  (c <> NaN -> in_0_100 c) -> (s <> NaN -> in_0_100 s) ->
  (q <> NaN -> in_0_100 q) ->
  let v := (Fin 0.25 * b + Fin 0.20 * l + Fin 0.20 * c + Fin 0.15 * s
            + Fin 0.20 * q)%fl in
  v <> NaN -> in_0_100 v.
Proof.
  intros Hb Hl Hc Hs Hq v Hv. subst v.
  apply fadd_notna in Hv as [Hv H5]. apply fadd_notna in Hv as [Hv H4].
  apply fadd_notna in Hv as [Hv H3]. apply fadd_notna in Hv as [H1 H2].
  apply fmul_notna in H1 as [_ H1]. apply fmul_notna in H2 as [_ H2].
  apply fmul_notna in H3 as [_ H3]. apply fmul_notna in H4 as [_ H4].
  apply fmul_notna in H5 as [_ H5].
  destruct (in_0_100_fin _ (Hb H1)) as (b' & -> & ?).
  destruct (in_0_100_fin _ (Hl H2)) as (l' & -> & ?).
  destruct (in_0_100_fin _ (Hc H3)) as (c' & -> & ?).
  destruct (in_0_100_fin _ (Hs H4)) as (s' & -> & ?).
  destruct (in_0_100_fin _ (Hq H5)) as (q' & -> & ?).
  simpl. lra.
Qed.

Lemma cell_lookup (s : list fl) (i : nat) :
  (i < length s)%nat -> s !! i = Some (cell s i).
Proof.
  intros Hi. unfold cell.
  destruct (lookup_lt_is_Some_2 s i Hi) as [x ->]. reflexivity.
Qed.

Lemma meta_score_cell (df : list row) (i : nat) :
  (i < length df)%nat ->
  cell (meta_score df) i
  = (Fin 0.25 * cell (buffett_score df) i + Fin 0.20 * cell (lynch_score df) i
     + Fin 0.20 * cell (icahn_score df) i + Fin 0.15 * cell (soros_score df) i
     + Fin 0.20 * cell (simons_score df) i)%fl.
Proof.
  intros Hi. unfold cell at 1. unfold meta_score, sadd, scale.
  rewrite !lookup_zip_with, !list_lookup_fmap.
  rewrite (cell_lookup (buffett_score df) i), (cell_lookup (lynch_score df) i),
    (cell_lookup (icahn_score df) i), (cell_lookup (soros_score df) i),
    (cell_lookup (simons_score df) i);
    rewrite ?length_buffett_score, ?length_lynch_score, ?length_icahn_score,
      ?length_soros_score, ?length_simons_score; try exact Hi.
  reflexivity.
Qed.

(** C9: every defined sub-score and meta-score lies in [0, 100]; the
    meta-score is the combination of the five sub-scores with weights
    0.25, 0.20, 0.20, 0.15, 0.20, which add up to 1. *)
Theorem scores_within_0_100 (df : list row) (i : nat) (r : scored) :
  with_scores df !! i = Some r ->
  (buffett r <> NaN -> in_0_100 (buffett r)) /\
  (lynch r <> NaN -> in_0_100 (lynch r)) /\
  (icahn r <> NaN -> in_0_100 (icahn r)) /\
  (soros r <> NaN -> in_0_100 (soros r)) /\
  (simons r <> NaN -> in_0_100 (simons r)) /\
  (meta r <> NaN -> in_0_100 (meta r)) /\
  meta r = (Fin 0.25 * buffett r + Fin 0.20 * lynch r + Fin 0.20 * icahn r
            + Fin 0.15 * soros r + Fin 0.20 * simons r)%fl /\
  0.25 + 0.20 + 0.20 + 0.15 + 0.20 == 1.
Proof.
  unfold with_scores. rewrite list_lookup_imap.
  destruct (df !! i) as [x|] eqn:Hx; [|discriminate].
  simpl. intros [= <-]. simpl.
  pose proof (lookup_lt_Some _ _ _ Hx) as Hi.
  assert (Hb : cell (buffett_score df) i <> NaN -> in_0_100 (cell (buffett_score df) i)).
  { apply (ip_boost_range (ip_z df) (pos_clip (buffett_raw df)) i).
    - intros s. apply pos_clip_range.
    - apply cell_lookup. by rewrite length_buffett_score. }
  assert (Hq : cell (simons_score df) i <> NaN -> in_0_100 (cell (simons_score df) i)).
  { apply (ip_boost_range (ip_z df) (pos_clip (simons_raw df)) i).
    - intros s. apply pos_clip_range.
    - apply cell_lookup. by rewrite length_simons_score. }
  assert (Hl : cell (lynch_score df) i <> NaN -> in_0_100 (cell (lynch_score df) i)).
  { apply (pos_clip_range (lynch_raw df) i), cell_lookup.
    by rewrite length_lynch_score. }
  assert (Hc : cell (icahn_score df) i <> NaN -> in_0_100 (cell (icahn_score df) i)).
  { apply (pos_clip_range (icahn_raw df) i), cell_lookup.
    by rewrite length_icahn_score. }
  assert (Hs : cell (soros_score df) i <> NaN -> in_0_100 (cell (soros_score df) i)).
  { apply (pos_clip_range (soros_raw df) i), cell_lookup.
    by rewrite length_soros_score. }
  repeat split; try assumption.
  - rewrite (meta_score_cell df i Hi). by apply meta_range.
  - exact (meta_score_cell df i Hi).
Qed.

(** ** Sorting the output *)

Lemma before_asym (x y : fl) : before x y = true -> before y x = false.
Proof.
  unfold before, notna, fgtb.
  destruct x, y; simpl; try congruence.
  intros H. apply negb_true_iff in H. qbool.
  apply negb_false_iff, Qle_bool_iff. lra.
Qed.

Lemma before_false (x y : fl) :
  before y x = false <-> y = NaN \/ fleb y x = true.
Proof.
  unfold before, notna, fgtb.
  destruct x, y; simpl; split; intros H; try tauto; try congruence;
    try (destruct H; congruence).
  - right. apply negb_false_iff in H. exact H.
  - destruct H as [H | H]; [congruence|]. by rewrite H.
Qed.

(** Not being before is transitive: [before] is a strict weak order. *)
Lemma before_false_trans (x y z : fl) :
  before x y = false -> before y z = false -> before x z = false.
Proof.
  unfold before, notna, fgtb.
  destruct x, y, z; simpl; try congruence.
  intros H1 H2. apply negb_false_iff in H1, H2. qbool.
  apply negb_false_iff, Qle_bool_iff. lra.
Qed.

Section SortFacts.
Context {A : Type} (key : A -> fl).

Lemma insert_desc_perm (x : A) (l : list A) :
  Permutation (insert_desc key x l) (x :: l).
Proof.
  induction l as [|y l IH]; simpl; [reflexivity|].
  destruct (before (key y) (key x)); [|reflexivity].
  rewrite IH. apply perm_swap.
Qed.

Lemma sort_values_perm (df : list A) : Permutation (sort_values key df) df.
Proof.
  induction df as [|x df IH]; simpl; [reflexivity|].
  rewrite insert_desc_perm. by constructor.
Qed.

Lemma insert_desc_in_order (x : A) (l : list A) :
  StronglySorted (in_order key) l -> StronglySorted (in_order key) (insert_desc key x l).
Proof.
  induction 1 as [|y l Hl IH Hy]; simpl.
  - repeat constructor.
  - destruct (before (key y) (key x)) eqn:E.
    + constructor; [exact IH|].
      rewrite insert_desc_perm. constructor; [|exact Hy].
      unfold in_order. by apply before_asym.
    + constructor; [by constructor|].
      constructor; [exact E|].
      eapply Forall_impl; [exact Hy|].
      intros z Hz. unfold in_order in *. simpl in Hz.
      eapply before_false_trans; eassumption.
Qed.

Lemma sort_values_in_order (df : list A) :
  StronglySorted (in_order key) (sort_values key df).
Proof.
  induction df as [|x df IH]; simpl; [constructor|].
  by apply insert_desc_in_order.
Qed.

Lemma in_order_lookup (l : list A) (i j : nat) (a b : A) :
  StronglySorted (in_order key) l -> (i < j)%nat ->
  l !! i = Some a -> l !! j = Some b -> in_order key a b.
Proof.
  intros Hl. revert i j. induction Hl as [|y l Hl IH Hy]; intros i j Hij Ha Hb.
  - discriminate.
  - destruct j as [|j]; [lia|]. simpl in Hb. destruct i as [|i].
    + injection Ha as ->.
      rewrite Forall_forall in Hy. eapply Hy, list_elem_of_lookup_2, Hb.
    + simpl in Ha. apply (IH i j); [lia | exact Ha | exact Hb].
Qed.

End SortFacts.

Lemma tickers_with_scores (df : list row) :
  tickers (with_scores df) = map ticker df.
Proof.
  unfold tickers, with_scores. apply list_eq. intros i.
  rewrite !list_lookup_fmap, list_lookup_imap.
  by destruct (df !! i).
Qed.

Lemma tickers_collect (fetch : string -> metrics) (u : list string) :
  map ticker (collect fetch u) = u.
Proof.
  unfold collect. induction u as [|t u IH]; simpl; [reflexivity|].
  by rewrite IH.
Qed.

(** C5 (amended): for a universe that is not empty (an empty frame has no
    column to score), the output holds every ticker of the universe, once
    per occurrence, and is sorted by meta-score descending, the rows
    without a meta-score last; the ticker is not a sort key. *)
Theorem screen_permutes_and_sorts (fetch : string -> metrics) (u : list string) :
  u <> [] ->
  Permutation (tickers (screen fetch u)) u /\
  (forall i j a b, (i < j)%nat ->
     screen fetch u !! i = Some a -> screen fetch u !! j = Some b ->
     meta b = NaN \/ fleb (meta b) (meta a) = true).
Proof.
  intros _. unfold screen. split.
  - unfold tickers at 1.
    rewrite (sort_values_perm meta (with_scores (collect fetch u))).
    fold (tickers (with_scores (collect fetch u))).
    by rewrite tickers_with_scores, tickers_collect.
  - intros i j a b Hij Ha Hb. apply before_false.
    apply (in_order_lookup meta _ i j a b (sort_values_in_order meta _) Hij Ha Hb).
Qed.

(** * Further properties *)

(** ** Change in shares outstanding *)

Lemma iloc_head (x : fl) (l : list fl) : iloc (x :: l) 0 = Ok x.
Proof.
  unfold iloc. cbn [length]. simpl (0 <? 0)%Z. cbv iota.
  replace (0 <? Z.of_nat (S (length l)))%Z with true
    by (symmetry; apply Z.ltb_lt; lia).
  reflexivity.
Qed.

Lemma iloc_last (l : list fl) (x : fl) : iloc (l ++ [x]) (-1) = Ok x.
Proof.
  unfold iloc. rewrite length_app. cbn [length].
  change (-1 <? 0)%Z with true. cbv iota.
  replace (-1 + Z.of_nat (length l + 1))%Z with (Z.of_nat (length l)) by lia.
  replace (0 <=? Z.of_nat (length l))%Z with true
    by (symmetry; apply Z.leb_le; lia).
  replace (Z.of_nat (length l) <? Z.of_nat (length l + 1))%Z with true
    by (symmetry; apply Z.ltb_lt; lia).
  cbn [andb]. rewrite Nat2Z.id.
  rewrite lookup_app_r by lia. rewrite Nat.sub_diag. reflexivity.
Qed.

Lemma Qabs_pos (a : Q) : ~ a == 0 -> 0 < (if Qle_bool 0 a then a else - a).
Proof.
  intros Ha. destruct (Qle_bool 0 a) eqn:E; qbool; lra.
Qed.

Lemma Qdiv_pos_iff (x c : Q) : 0 < c -> (0 < x / c <-> 0 < x).
Proof.
  intros Hc. split; intros H.
  - destruct (Qlt_le_dec 0 x) as [Hx | Hx]; [exact Hx | exfalso].
    assert (x / c <= 0) by (apply Qle_shift_div_r; lra). lra.
  - apply Qlt_shift_div_l; lra.
Qed.

Lemma Qdiv_nonneg_iff (x c : Q) : 0 < c -> (0 <= x / c <-> 0 <= x).
Proof.
  intros Hc. split; intros H.
  - destruct (Qlt_le_dec x 0) as [Hx | Hx]; [exfalso | exact Hx].
    assert (x / c < 0) by (apply Qlt_shift_div_r; lra). lra.
  - apply Qle_shift_div_l; lra.
Qed.

(** The change of a non-zero finite base [a] to [b] is [(b - a) / |a|]: it
    is positive exactly when [b] is above [a], whatever the sign of [a]. *)
Lemma pct_change_finite (a b : Q) :
  ~ a == 0 ->
  pct_change (PFloat (Fin a)) (PFloat (Fin b))
  = Fin ((b + - a) / (if Qle_bool 0 a then a else - a)).
Proof.
  intros Ha. pose proof (Qabs_pos a Ha) as Hp.
  unfold pct_change, py_truediv. cbn -[Qle_bool].
  apply Qeq_bool_false in Ha as Hz. rewrite Hz. cbn -[Qle_bool].
  assert (Hz' : Qeq_bool (if Qle_bool 0 a then a else - a) 0 = false)
    by (apply Qeq_bool_false; lra).
  rewrite Hz'. reflexivity.
Qed.

(** X1: the share change is NaN when the provider fails or fewer than two
    observations are defined; otherwise it compares the first defined
    observation with the last one, the observations between them having no
    effect, and it is positive exactly when the share count has grown. *)
Theorem shr_change_first_to_last (shares : list fl) :
  (forall e, shr_change (Raise e) = NaN) /\
  shr_change (Ok None) = NaN /\
  ((length (dropna shares) < 2)%nat -> shr_change (Ok (Some shares)) = NaN) /\
  (forall a b mid, dropna shares = Fin a :: mid ++ [Fin b] -> ~ a == 0 ->
     exists v, shr_change (Ok (Some shares)) = Fin v /\
               v == (b - a) / (if Qle_bool 0 a then a else - a) /\
               (0 < v <-> a < b)).
Proof.
  repeat split; try reflexivity.
  - intros H. unfold shr_change. cbn [mbind result_bind].
    destruct (dropna shares) as [|x [|y l]]; simpl in H; try lia; reflexivity.
  - intros a b mid Hd Ha. unfold shr_change. cbn [mbind result_bind].
    rewrite Hd.
    replace (2 <=? length (Fin a :: mid ++ [Fin b]))%nat with true
      by (symmetry; apply Nat.leb_le; rewrite length_cons, length_app; simpl; lia).
    rewrite iloc_head. cbn [mbind result_bind].
    change (iloc (Fin a :: mid ++ [Fin b]) (-1))
      with (iloc ((Fin a :: mid) ++ [Fin b]) (-1)).
    rewrite (iloc_last (Fin a :: mid) (Fin b)). cbn [mbind result_bind value_or].
    rewrite (pct_change_finite a b Ha).
    eexists. split; [reflexivity|]. split; [reflexivity|].
    rewrite (Qdiv_pos_iff _ _ (Qabs_pos a Ha)). split; intros; lra.
Qed.

(** ** Macro proxies *)

Lemma get_macro_proxy_log (prov : provider) (sym : string) (fb : pyval)
    (log : list string) :
  snd (get_macro_proxy prov sym fb log) = log ++ [sym].
Proof. reflexivity. Qed.

(** X2: the dollar index: the override when the key is there; else the last
    close of DX-Y.NYB; else the last close of ^DXY; else NaN.  In every
    case both symbols are queried, ^DXY first, the fallback being an
    argument of the call it is the fallback of. *)
Theorem usd_dxy_resolution (macro_ovr : gmap string pyval) (prov : provider)
    (log : list string) :
  let r := resolve_usd_dxy macro_ovr prov log in
  snd r = log ++ ["^DXY"; "DX-Y.NYB"]%string /\
  (forall v, macro_ovr !! "usd_dxy"%string = Some v -> fst r = v) /\
  (macro_ovr !! "usd_dxy"%string = None ->
     (forall s x, prov "DX-Y.NYB"%string = Ok s -> last s = Some x ->
        fst r = PFloat x) /\
     ((prov "DX-Y.NYB"%string = Ok [] \/ exists e, prov "DX-Y.NYB"%string = Raise e) ->
        (forall s x, prov "^DXY"%string = Ok s -> last s = Some x ->
           fst r = PFloat x) /\
        ((prov "^DXY"%string = Ok [] \/ exists e, prov "^DXY"%string = Raise e) ->
           fst r = PFloat NaN))).
Proof.
  cbv beta iota zeta delta
    [resolve_usd_dxy bind_M get_macro_proxy history ret_M dict_get_or fst snd].
  split; [by rewrite <- app_assoc|]. split.
  - intros v ->. reflexivity.
  - intros ->. cbn [default]. split.
    + intros s x -> ->. reflexivity.
    + intros H1. split.
      * intros s x -> ->. destruct H1 as [-> | [e ->]]; reflexivity.
      * intros H2. destruct H1 as [-> | [e ->]], H2 as [-> | [e' ->]]; reflexivity.
Qed.

(** X3: the queries of a run: the three proxies resolved with [get] and a
    default are fetched whether or not they are overridden, so that a full
    set of overrides still makes four queries; the ten-year yield alone is
    fetched only when it is not overridden.  An override present for oil or
    gold is returned as it is, [None] for a JSON [null]. *)
Theorem macro_proxies_queries (macro_ovr : gmap string pyval) (prov : provider)
    (log : list string) :
  let r := macro_proxies macro_ovr prov log in
  snd r = log ++ (if overridden macro_ovr then [] else ["^TNX"%string])
              ++ ["^DXY"; "DX-Y.NYB"; "CL=F"; "GC=F"]%string /\
  (forall v, macro_ovr !! "wti"%string = Some v -> wti (fst r) = v) /\
  (forall v, macro_ovr !! "gold"%string = Some v -> gold (fst r) = v).
Proof.
  unfold overridden.
  cbv beta iota zeta delta
    [macro_proxies resolve_ten_year resolve_usd_dxy resolve_wti resolve_gold
     bind_M get_macro_proxy history ret_M dict_get_or fst snd].
  destruct (is_none (dict_get macro_ovr "ten_year_yield"));
    cbv beta iota zeta delta [bind_M ret_M fst snd negb];
    (split; [by rewrite <- !app_assoc|]); cbn [wti gold];
    split; intros v ->; reflexivity.
Qed.

(** ** ROIC, net debt, interest coverage *)


Lemma ic_avg_one (c : Q) :
  ic_avg (Fin c) NaN = Fin ((0 + c) / 1) /\ ic_avg NaN (Fin c) = Fin ((0 + c) / 1).
Proof. split; reflexivity. Qed.

Lemma ic_avg_two (c1 c2 : Q) : ic_avg (Fin c1) (Fin c2) = Fin ((0 + c1 + c2) / 2).
Proof. reflexivity. Qed.

(** X4: ROIC is NaN without an EBIT or without any period of invested capital;
    with one period only it is 0.79 EBIT over that period's capital, the
    average being taken over the periods that are defined; with both it is
    0.79 EBIT over their mean. *)
Theorem roic_of_available_periods (ebit ic_now ic_prev : fl) :
  (ebit = NaN \/ (ic_now = NaN /\ ic_prev = NaN) ->
   roic ebit ic_now ic_prev = Ok NaN) /\
  (forall e c, ebit = Fin e ->
     (ic_now = Fin c /\ ic_prev = NaN) \/ (ic_now = NaN /\ ic_prev = Fin c) ->
     ~ c == 0 ->
     exists v, roic ebit ic_now ic_prev = Ok (Fin v) /\ v == 0.79 * e / c) /\
  (forall e c1 c2, ebit = Fin e -> ic_now = Fin c1 -> ic_prev = Fin c2 ->
     ~ c1 + c2 == 0 ->
     exists v, roic ebit ic_now ic_prev = Ok (Fin v) /\
               v == 0.79 * e / ((c1 + c2) / 2)).
Proof.
  unfold roic. rewrite safe_div_value. cbn [as_fl]. repeat split.
  - intros [-> | [-> ->]].
    + cbn [nopat notna is_nan negb]. by destruct (_ || _).
    + reflexivity.
  - intros e c -> Hc Hz.
    assert (E : ic_avg ic_now ic_prev = Fin ((0 + c) / 1)).
    { destruct Hc as [[-> ->] | [-> ->]]; apply ic_avg_one. }
    rewrite E. unfold nopat, tax_rate. cbn -[Qeq_bool].
    assert (Hn : Qeq_bool ((0 + c) / 1) 0 = false).
    { apply Qeq_bool_false. intros H. apply Hz. rewrite <- H. field. }
    rewrite Hn. cbn -[Qeq_bool]. rewrite ?Hn.
    eexists. split; [reflexivity|]. field. exact Hz.
  - intros e c1 c2 -> -> -> Hz. rewrite ic_avg_two.
    unfold nopat, tax_rate. cbn -[Qeq_bool].
    assert (Hn : Qeq_bool ((0 + c1 + c2) / 2) 0 = false).
    { apply Qeq_bool_false. intros H. apply Hz.
      transitivity (2 * ((0 + c1 + c2) / 2)); [field | rewrite H; reflexivity]. }
    rewrite Hn. cbn -[Qeq_bool]. rewrite ?Hn.
    eexists. split; [reflexivity|]. field. exact Hz.
Qed.


(** X6: interest coverage is NaN without an EBIT, without an interest expense
    or with a zero one; otherwise it is EBIT over the magnitude of the
    expense, so that it has the sign of EBIT whichever way the expense is
    signed. *)
Theorem int_cov_sign_of_ebit (ebit interest_exp : fl) :
  (ebit = NaN \/ interest_exp = NaN \/ (exists i, interest_exp = Fin i /\ i == 0) ->
   int_cov ebit interest_exp = Ok NaN) /\
  (forall e i, ebit = Fin e -> interest_exp = Fin i -> ~ i == 0 ->
     exists v, int_cov ebit interest_exp = Ok (Fin v) /\
               v == e / (if Qle_bool 0 i then i else - i) /\
               (0 <= v <-> 0 <= e)).
Proof.
  unfold int_cov. rewrite safe_div_value. cbn [as_fl]. split.
  - intros [-> | [-> | (i & -> & Hi)]].
    + by destruct (_ || _).
    + reflexivity.
    + cbn -[Qle_bool Qeq_bool].
      assert (Hz : Qeq_bool (if Qle_bool 0 i then i else - i) 0 = true).
      { apply Qeq_bool_iff. destruct (Qle_bool 0 i); lra. }
      by rewrite Hz.
  - intros e i -> -> Hi. pose proof (Qabs_pos i Hi) as Hp.
    cbn -[Qle_bool Qeq_bool].
    assert (Hz : Qeq_bool (if Qle_bool 0 i then i else - i) 0 = false)
      by (apply Qeq_bool_false; lra).
    rewrite Hz. cbn -[Qle_bool Qeq_bool]. rewrite ?Hz.
    eexists. split; [reflexivity|]. split; [reflexivity|].
    apply (Qdiv_nonneg_iff _ _ Hp).
Qed.

(** ** Macro sensitivity *)

(** X7: the macro sensitivity is a whole number from 0 to 3.  A sector naming
    financials, materials or industry scores at least 2, each of these
    keywords counting for two of the three flags; a sector naming none of
    the keywords scores 1 with a positive net debt and 0 otherwise, an
    undefined net debt counting as no debt. *)
Theorem macro_sensitivity_levels (sector : option string) (net_debt : fl) :
  let s := sector_of sector in
  exists n : nat,
    feq (macro_sensitivity_of sector net_debt) (Fin (inject_Z (Z.of_nat n))) /\
    (n <= 3)%nat /\
    (contains "financial" s = true \/ contains "materials" s = true
     \/ contains "industr" s = true -> (2 <= n)%nat) /\
    (cyclical s = false -> fx_sensitive s = false \/ contains "technology" s = true) /\
    (cyclical s = false -> contains "technology" s = false ->
     n = if fgtb net_debt (Fin 0) then 1%nat else 0%nat).
Proof.
  intros s. unfold macro_sensitivity_of. fold s.
  exists (Nat.b2n (cyclical s) + Nat.b2n (rate_sensitive s net_debt)
          + Nat.b2n (fx_sensitive s))%nat.
  unfold cyclical, rate_sensitive, fx_sensitive. cbn [existsb].
  assert (Hnd : fl_truthy net_debt && fgtb net_debt (Fin 0) = fgtb net_debt (Fin 0)).
  { destruct net_debt as [| | |q]; try reflexivity.
    unfold fgtb, fltb, fl_truthy.
    destruct (Qle_bool q 0) eqn:E1, (Qeq_bool q 0) eqn:E2; try reflexivity.
    qbool. lra. }
  rewrite Hnd.
  destruct (contains "financial" s), (contains "materials" s),
    (contains "industr" s), (contains "energy" s),
    (contains "discretionary" s), (contains "technology" s),
    (fgtb net_debt (Fin 0));
    cbn; repeat split; try lia; try discriminate; auto;
    try (intros [? | [? | ?]]; discriminate).
Qed.

(** ** Patents *)

Lemma ascii_upper_idempotent (c : Ascii.ascii) :
  ascii_upper (ascii_upper c) = ascii_upper c.
Proof. destruct c as [[] [] [] [] [] [] [] []]; reflexivity. Qed.

Lemma upper_idempotent (s : string) : upper (upper s) = upper s.
Proof.
  induction s as [|c s IH]; [reflexivity|].
  cbn [upper]. by rewrite ascii_upper_idempotent, IH.
Qed.

Lemma filter_first_match {A} (p : A -> bool) (pre post : list A) (r : A) :
  (forall x, In x pre -> p x = false) -> p r = true ->
  exists rest, List.filter p (pre ++ r :: post) = r :: rest.
Proof.
  intros Hpre Hr. induction pre as [|x pre IH]; simpl.
  - rewrite Hr. eauto.
  - rewrite (Hpre x) by (by left). apply IH. intros y Hy. apply Hpre. by right.
Qed.

Lemma filter_no_match {A} (p : A -> bool) (l : list A) :
  (forall x, In x l -> p x = false) -> List.filter p l = [].
Proof.
  intros H. induction l as [|x l IH]; [reflexivity|]. simpl.
  rewrite (H x) by (by left). apply IH. intros y Hy. apply H. by right.
Qed.

(** X8: the IP fields of a ticker come from the first row of the table whose
    ticker is the ticker up to the case of its letters, later rows for the
    same ticker being ignored; they are all NaN without a table or without
    such a row, and one is NaN alone when its column is not in the table
    or its cell is empty. *)
Theorem ip_of_first_match (pat : ip_table) (t : string) :
  ip_of None t = no_ip /\
  ((forall r, In r (ip_rows pat) -> upper (fst r) <> upper t) ->
   ip_of (Some pat) t = no_ip) /\
  (forall pre r post,
     ip_rows pat = pre ++ r :: post ->
     (forall r', In r' pre -> upper (fst r') <> upper t) ->
     upper (fst r) = upper t ->
     ip_of (Some pat) t
     = {| ip_patents := ip_field pat r "patent_count";
          ip_citations := ip_field pat r "forward_citations";
          ip_rd := ip_field pat r "rd_to_sales" |}) /\
  (forall r col, ~ In col (ip_columns pat) -> ip_field pat r col = NaN) /\
  (forall r col, snd r !! col = None -> ip_field pat r col = NaN).
Proof.
  split; [reflexivity|].
  unfold ip_of, ip_lookup, ip_rec. cbn [fmap option_fmap option_map load_upper ip_rows].
  split; [|split; [|split]].
  - intros H. rewrite filter_no_match; [reflexivity|].
    intros x Hx. apply in_map_iff in Hx as (r & <- & Hr). cbn [fst].
    rewrite upper_idempotent. apply String.eqb_neq. by apply H.
  - intros pre r post Hrows Hpre Hr. rewrite Hrows, map_app. cbn [map].
    destruct (filter_first_match
                (fun r0 : string * gmap string fl => (upper (fst r0) =? upper t)%string)
                (map (fun r0 => (upper (fst r0), snd r0)) pre)
                (map (fun r0 => (upper (fst r0), snd r0)) post)
                (upper (fst r), snd r)) as [rest ->].
    + intros x Hx. apply in_map_iff in Hx as (r' & <- & Hr'). cbn [fst].
      rewrite upper_idempotent. apply String.eqb_neq. by apply Hpre.
    + cbn [fst]. rewrite upper_idempotent. by apply String.eqb_eq.
    + reflexivity.
  - intros r col Hc. unfold ip_field.
    destruct (existsb (String.eqb col) (ip_columns pat)) eqn:E; [|reflexivity].
    apply existsb_exists in E as (c & Hin & Hceq).
    apply String.eqb_eq in Hceq. subst c. contradiction.
  - intros r col Hc. unfold ip_field. rewrite Hc.
    by destruct (existsb _ _).
Qed.

(** ** Standard scores *)







(** ** Rescaling, on columns without infinities *)

Lemma fold_fmin_in (xs : list fl) (acc : fl) : In (fold_left fmin xs acc) (acc :: xs).
Proof.
  revert acc. induction xs as [|y xs IH]; intros acc; simpl; [by left|].
  destruct (IH (fmin acc y)) as [H | H].
  - rewrite <- H. unfold fmin.
    destruct (fleb y acc); [right; left | left]; reflexivity.
  - right. right. exact H.
Qed.

Lemma fold_fmax_in (xs : list fl) (acc : fl) : In (fold_left fmax xs acc) (acc :: xs).
Proof.
  revert acc. induction xs as [|y xs IH]; intros acc; simpl; [by left|].
  destruct (IH (fmax acc y)) as [H | H].
  - rewrite <- H. unfold fmax.
    destruct (fleb acc y); [right; left | left]; reflexivity.
  - right. right. exact H.
Qed.

(** The minimum and the maximum of a column with a defined entry are
    entries of the column. *)
Lemma nanmin_nanmax_finite (s : list fl) (x : Q) :
  finite_column s -> In (Fin x) s ->
  exists lo hi, nanmin s = Fin lo /\ nanmax s = Fin hi /\
                In (Fin lo) s /\ In (Fin hi) s /\ lo <= x /\ x <= hi.
Proof.
  intros Hs Hin.
  assert (Hx : Fin x <> NaN) by discriminate.
  destruct (nanmin_nanmax_bound s (Fin x) Hin Hx) as [Hlo Hhi].
  pose proof (dropna_finite s Hs) as Hf. rewrite List.Forall_forall in Hf.
  assert (Hmin : In (nanmin s) (dropna s)).
  { unfold nanmin. pose proof (in_dropna s _ Hin Hx) as Hd.
    destruct (dropna s) as [|y ys]; [destruct Hd|]. apply fold_fmin_in. }
  assert (Hmax : In (nanmax s) (dropna s)).
  { unfold nanmax. pose proof (in_dropna s _ Hin Hx) as Hd.
    destruct (dropna s) as [|y ys]; [destruct Hd|]. apply fold_fmax_in. }
  pose proof (Hf _ Hmin) as Fmin. pose proof (Hf _ Hmax) as Fmax.
  destruct (nanmin s) as [| | |lo]; try discriminate.
  destruct (nanmax s) as [| | |hi]; try discriminate.
  simpl in Hlo, Hhi. qbool.
  unfold dropna in Hmin, Hmax.
  apply filter_In in Hmin as [Hmin _]. apply filter_In in Hmax as [Hmax _].
  exists lo, hi. repeat split; assumption.
Qed.


(** ** Rows with an undefined metric *)

Lemma pos_clip_nan (s : list fl) (i : nat) :
  s !! i = Some NaN -> pos_clip s !! i = Some NaN.
Proof. intros H. unfold pos_clip. by rewrite list_lookup_fmap, H. Qed.

Lemma ip_boost_lookup (ipz score : list fl) (i : nat) (z s : fl) :
  ipz !! i = Some z -> score !! i = Some s ->
  exists p, pos_clip ipz !! i = Some p /\
    ip_boost ipz score !! i
    = Some (if is_nan z then s else (s * Fin 0.9 + p * Fin 0.1)%fl).
Proof.
  intros Hz Hs.
  assert (Hp : is_Some (pos_clip ipz !! i)).
  { apply lookup_lt_is_Some_2. rewrite length_pos_clip.
    eapply lookup_lt_Some, Hz. }
  destruct Hp as [p Hp]. exists p. split; [exact Hp|].
  unfold ip_boost. rewrite !lookup_zip_with, Hz, Hp, Hs. reflexivity.
Qed.

(** A row without IP data keeps its score. *)
Lemma ip_boost_nan (ipz score : list fl) (i : nat) :
  ipz !! i = Some NaN -> (i < length score)%nat ->
  ip_boost ipz score !! i = score !! i.
Proof.
  intros Hz Hi. destruct (lookup_lt_is_Some_2 score i Hi) as [s Hs].
  destruct (ip_boost_lookup ipz score i NaN s Hz Hs) as (p & _ & ->).
  by rewrite Hs.
Qed.

Lemma ip_boost_score_nan (ipz score : list fl) (i : nat) :
  score !! i = Some NaN -> (i < length ipz)%nat ->
  ip_boost ipz score !! i = Some NaN.
Proof.
  intros Hs Hi. destruct (lookup_lt_is_Some_2 ipz i Hi) as [z Hz].
  destruct (ip_boost_lookup ipz score i z NaN Hz Hs) as (p & _ & ->).
  by destruct (is_nan z).
Qed.

(** X11: the IP boost leaves alone the rows without IP data: with one of the
    three IP fields undefined the quality and quant scores of a row are the
    rescaled sums, unblended. *)
Theorem ip_boost_needs_all_ip_fields (df : list row) (i : nat) (r : row) :
  df !! i = Some r ->
  Exists (fun f => f (metric r) = NaN) [patent_count; forward_citations; rd_to_sales] ->
  buffett_score df !! i = pos_clip (buffett_raw df) !! i /\
  simons_score df !! i = pos_clip (simons_raw df) !! i.
Proof.
  intros Hrow HE.
  assert (Hz : ip_z df !! i = Some NaN).
  { unfold ip_z.
    repeat (apply Exists_cons in HE as [HE | HE]);
      try (by apply Exists_nil in HE); nan_summand Hrow. }
  pose proof (lookup_lt_Some _ _ _ Hrow) as Hi.
  unfold buffett_score, simons_score. split; apply ip_boost_nan; try exact Hz.
  - by rewrite length_pos_clip, length_buffett_raw.
  - by rewrite length_pos_clip, length_simons_raw.
Qed.

Lemma meta_score_nan (df : list row) (i : nat) :
  (i < length df)%nat ->
  buffett_score df !! i = Some NaN \/ lynch_score df !! i = Some NaN \/
  icahn_score df !! i = Some NaN \/ soros_score df !! i = Some NaN \/
  simons_score df !! i = Some NaN ->
  cell (meta_score df) i = NaN.
Proof.
  intros Hi H. rewrite (meta_score_cell df i Hi).
  assert (Hc : forall s, s !! i = Some NaN -> cell s i = NaN)
    by (intros s Hs; unfold cell; by rewrite Hs).
  destruct H as [H | [H | [H | [H | H]]]]; rewrite (Hc _ H);
    cbn [fmul]; rewrite ?fadd_nan_r; reflexivity.
Qed.

(** A raw sum that is NaN gives a NaN score. *)
Ltac nan_score Hrow :=
  lazymatch goal with
  | |- ip_boost _ (pos_clip _) !! _ = Some NaN =>
      apply ip_boost_score_nan;
      [ apply pos_clip_nan; nan_summand Hrow
      | rewrite length_ip_z; exact (lookup_lt_Some _ _ _ Hrow) ]
  | |- pos_clip _ !! _ = Some NaN => apply pos_clip_nan; nan_summand Hrow
  end.

Lemma undefined_metric_meta (df : list row) (i : nat) (r : row) :
  df !! i = Some r ->
  Exists (fun f => f (metric r) = NaN)
    [roic_est; fcf_margin; fcf_yield; ebit_margin; net_debt; interest_coverage;
     PEG_col; PEGY_col; growth_proxy_col;
     cash_to_mcap; p_to_fcf_col; shares_chg_3y;
     macro_sensitivity; weekly_ac; vol_clust; ret_pred] ->
  cell (meta_score df) i = NaN.
Proof.
  intros Hrow HE. pose proof (lookup_lt_Some _ _ _ Hrow) as Hi.
  apply (meta_score_nan df i Hi).
  unfold buffett_score, lynch_score, icahn_score, soros_score, simons_score,
    buffett_raw, lynch_raw, icahn_raw, soros_raw, simons_raw,
    inv_PEG, inv_PEGY, inv_p_to_fcf.
  repeat (apply Exists_cons in HE as [HE | HE]);
    try (by apply Exists_nil in HE).
  1-6: left; nan_score Hrow.
  1-3: right; left; nan_score Hrow.
  1-3: right; right; left; nan_score Hrow.
  1: right; right; right; left; nan_score Hrow.
  1-3: right; right; right; right; nan_score Hrow.
Qed.

Lemma with_scores_elem (df : list row) (a : scored) :
  In a (with_scores df) ->
  exists k, df !! k = Some (base a) /\ meta a = cell (meta_score df) k.
Proof.
  intros Ha. apply list_elem_of_In, list_elem_of_lookup in Ha as [k Hk].
  unfold with_scores in Hk. rewrite list_lookup_imap in Hk.
  destruct (df !! k) as [r|] eqn:E; [|discriminate].
  injection Hk as <-. exists k. split; [exact E | reflexivity].
Qed.

(** X12: one undefined metric among the sixteen that are scored leaves a ticker
    without a meta-score, and in the output no ticker with a meta-score is
    listed after it. *)
Theorem undefined_metric_sorts_last (fetch : string -> metrics) (u : list string)
    (i j : nat) (a b : scored) :
  (i < j)%nat ->
  screen fetch u !! i = Some a -> screen fetch u !! j = Some b ->
  Exists (fun f => f (metric (base a)) = NaN)
    [roic_est; fcf_margin; fcf_yield; ebit_margin; net_debt; interest_coverage;
     PEG_col; PEGY_col; growth_proxy_col;
     cash_to_mcap; p_to_fcf_col; shares_chg_3y;
     macro_sensitivity; weekly_ac; vol_clust; ret_pred] ->
  meta a = NaN /\ meta b = NaN.
Proof.
  intros Hij Ha Hb HE. unfold screen in *.
  set (df := collect fetch u) in *.
  assert (Hin : In a (with_scores df)).
  { apply list_elem_of_In. rewrite <- (sort_values_perm meta (with_scores df)).
    eapply list_elem_of_lookup_2, Ha. }
  destruct (with_scores_elem df a Hin) as (k & Hk & Hm).
  assert (Hnan : meta a = NaN).
  { rewrite Hm. by apply (undefined_metric_meta df k (base a)). }
  split; [exact Hnan|].
  pose proof (in_order_lookup meta _ i j a b (sort_values_in_order meta _) Hij Ha Hb)
    as Ho.
  apply before_false in Ho as [Ho | Ho]; [exact Ho|].
  rewrite Hnan in Ho. destruct (meta b); discriminate.
Qed.

(** ** The summary *)

(** X13: the summary holds the first 20 rows of the output, all of them when
    there are fewer: no row left out has a meta-score above that of a row
    kept. *)
Theorem top20_are_best (fetch : string -> metrics) (u : list string) :
  u <> [] ->
  length (top20 fetch u) = Nat.min 20 (length u) /\
  top20 fetch u ++ drop 20 (screen fetch u) = screen fetch u /\
  (forall a b, In a (top20 fetch u) -> In b (drop 20 (screen fetch u)) ->
     meta b = NaN \/ fleb (meta b) (meta a) = true).
Proof.
  intros _. unfold top20. fold (screen fetch u). repeat split.
  - rewrite length_take.
    assert (Hl : length (screen fetch u) = length u).
    { unfold screen.
      rewrite (Permutation_length (sort_values_perm meta _)).
      unfold with_scores, collect. by rewrite length_imap, length_map. }
    by rewrite Hl.
  - apply take_drop.
  - intros a b Ha Hb.
    apply list_elem_of_In, list_elem_of_lookup in Ha as [i Hi].
    apply list_elem_of_In, list_elem_of_lookup in Hb as [j Hj].
    rewrite lookup_drop in Hj.
    pose proof (lookup_lt_Some _ _ _ Hi) as Hlt. rewrite length_take in Hlt.
    rewrite lookup_take_lt in Hi by lia.
    apply before_false.
    apply (in_order_lookup meta (screen fetch u) i (20 + j) a b);
      [apply sort_values_in_order | lia | exact Hi | exact Hj].
Qed.

(** ** Growth *)

(** X14: the growth proxy is NaN or strictly positive.  A positive analyst
    estimate is the proxy whatever the revenues; an estimate that is zero
    or negative leaves the proxy NaN whatever the revenues: the revenue
    CAGR stands in for an estimate that is absent, not for one that is
    discarded. *)
Theorem growth_proxy_positive_or_nan (earningsGrowth : pyval) (is_ : option frame) :
  (growth_proxy earningsGrowth is_ = NaN \/
   fgtb (growth_proxy earningsGrowth is_) (Fin 0) = true) /\
  (forall e, as_fl earningsGrowth = Some (Fin e) -> 0 < e ->
     growth_proxy earningsGrowth is_ = Fin e) /\
  (forall e, as_fl earningsGrowth = Some (Fin e) -> e <= 0 ->
     growth_proxy earningsGrowth is_ = NaN).
Proof.
  split; [apply positive_growth_nan_or_positive|].
  unfold growth_proxy, growth_of, positive_growth. split; intros e He Hs.
  - destruct earningsGrowth as [|z|[| | |q]]; try discriminate;
      injection He as <-; cbn -[Qle_bool];
      (replace (Qle_bool _ 0) with false
         by (symmetry; apply Qle_bool_false; exact Hs)); reflexivity.
  - destruct earningsGrowth as [|z|[| | |q]]; try discriminate;
      injection He as <-; cbn -[Qle_bool];
      (replace (Qle_bool _ 0) with true
         by (symmetry; apply Qle_bool_iff; exact Hs)); reflexivity.
Qed.

Lemma growth_rev_short (f : frame) (s : list fl) :
  f !! revenue_label = Some s -> (length (dropna (take 4 s)) < 2)%nat ->
  growth_rev (Some f) = NaN.
Proof.
  intros Hs Hl. unfold growth_rev.
  destruct (frame_empty f); [reflexivity|].
  unfold loc. rewrite Hs. cbn [mbind result_bind].
  replace (2 <=? length (dropna (take 4 s)))%nat with false
    by (symmetry; apply Nat.leb_gt; exact Hl).
  reflexivity.
Qed.

(** X15: the revenue CAGR reads the four most recent periods of the revenue
    line and nothing else of the statement; it is NaN without a statement,
    without the line or with fewer than two defined revenues among the
    four; otherwise it is the CAGR from the second most recent defined
    revenue to the most recent one, over one year less than the defined
    revenues. *)
Theorem growth_rev_reads_four_periods (f : frame) :
  growth_rev None = NaN /\
  (f !! revenue_label = None -> growth_rev (Some f) = NaN) /\
  (forall s, f !! revenue_label = Some s ->
     (length (dropna (take 4 s)) < 2)%nat -> growth_rev (Some f) = NaN) /\
  (forall s r0 r1 rest, f !! revenue_label = Some s ->
     dropna (take 4 s) = r0 :: r1 :: rest ->
     growth_rev (Some f)
     = cagr (PFloat r1) (PFloat r0) (Z.of_nat (length rest) + 1)) /\
  (forall f' s s', f !! revenue_label = Some s -> f' !! revenue_label = Some s' ->
     take 4 s = take 4 s' -> growth_rev (Some f) = growth_rev (Some f')).
Proof.
  split; [reflexivity|]. split; [|split; [|split]].
  - intros H. unfold growth_rev, loc. rewrite H.
    by destruct (frame_empty f).
  - intros s. apply growth_rev_short.
  - intros s r0 r1 rest. apply growth_rev_second_latest.
  - intros f' s s' Hs Hs' Ht.
    destruct (dropna (take 4 s)) as [|r0 [|r1 rest]] eqn:E.
    + rewrite (growth_rev_short f s Hs) by (rewrite E; simpl; lia).
      rewrite (growth_rev_short f' s' Hs') by (rewrite <- Ht, E; simpl; lia).
      reflexivity.
    + rewrite (growth_rev_short f s Hs) by (rewrite E; simpl; lia).
      rewrite (growth_rev_short f' s' Hs') by (rewrite <- Ht, E; simpl; lia).
      reflexivity.
    + rewrite (growth_rev_second_latest f s rest r0 r1 Hs E).
      rewrite (growth_rev_second_latest f' s' rest r0 r1 Hs') by (by rewrite <- Ht).
      reflexivity.
Qed.

(** ** Invested capital and free cash flow, as computed *)

(** X16: On operands without infinities the invested capital of a period is
    defined exactly when all six operands are, the subtracted ones
    included, and is then (TA - CL) - (cash + STI) - (goodwill +
    intangibles). *)
Theorem invested_cap_defined_iff (ta cl cash sti gw inta : fl) :
  Forall (fun x => x = NaN \/ is_finite x = true) [ta; cl; cash; sti; gw; inta] ->
  (invested_cap ta cl cash sti gw inta = NaN <->
   Exists (fun x => x = NaN) [ta; cl; cash; sti; gw; inta]) /\
  (forall a l c s g i,
     ta = Fin a -> cl = Fin l -> cash = Fin c -> sti = Fin s -> gw = Fin g ->
     inta = Fin i ->
     feq (invested_cap ta cl cash sti gw inta) (Fin ((a - l) - (c + s) - (g + i)))).
Proof using Type.
  intros HF. split.
  - split.
    + intros HN.
      repeat (apply Forall_cons in HF; destruct HF as [? HF]).
      repeat match goal with
        | H : ?x = NaN \/ is_finite ?x = true |- _ =>
            destruct H as [H | H];
            [ subst x;
              solve [repeat first [ apply Exists_cons_hd; reflexivity
                                  | apply Exists_cons_tl ]]
            | destruct x; try discriminate H; clear H ]
        end.
      match type of HN with
      | invested_cap (Fin ?a) (Fin ?l) (Fin ?c) (Fin ?s) (Fin ?g) (Fin ?i) = NaN =>
          pose proof (invested_cap_formula a l c s g i) as Hf
      end.
      rewrite HN in Hf. destruct Hf.
    + intros HE.
      repeat (apply Exists_cons in HE as [HE | HE]);
        try (by apply Exists_nil in HE); subst.
      * apply invested_cap_needs_ta_cl. by left.
      * apply invested_cap_needs_ta_cl. by right.
      * apply invested_cap_nan_component. auto.
      * apply invested_cap_nan_component. auto.
      * apply invested_cap_nan_component. auto.
      * apply invested_cap_nan_component. auto.
  - intros a l c s g i -> -> -> -> -> ->. apply invested_cap_formula.
Qed.

Lemma finite_column_take (n : nat) (s : list fl) :
  finite_column s -> finite_column (take n s).
Proof. unfold finite_column. apply Forall_take. Qed.

Lemma nansum_finite (s : list fl) : finite_column s -> exists q, nansum s = Fin q.
Proof.
  intros Hs. unfold nansum. apply fold_fadd_fin, dropna_finite, Hs.
Qed.

(** X17: with a quarterly statement that has both lines, the annual statement
    is not read and the free cash flow is the sum of the defined operating
    cash flows of the four latest quarters minus the sum of the defined
    capital expenditures: an undefined quarter counts as zero and, without
    infinities, the free cash flow is defined. *)
Theorem fcf_quarterly_sums (qcf : frame) (cf : option frame) (o c : list fl) :
  qcf !! ocf_label = Some o -> qcf !! capex_label = Some c ->
  finite_column o -> finite_column c ->
  fcf (Ok qcf) cf = fcf (Ok qcf) None /\
  exists so sc,
    nansum (take 4 o) = Fin so /\ nansum (take 4 c) = Fin sc /\
    feq (fcf (Ok qcf) cf) (Fin (so - sc)).
Proof.
  intros Ho Hc Fo Fc.
  assert (E : forall cf', ocf_capex (Ok qcf) cf'
                          = (nansum (take 4 o), nansum (take 4 c))).
  { intros cf'. unfold ocf_capex, loc.
    cbn [mbind result_bind]. rewrite Ho. cbn [mbind result_bind].
    rewrite Hc. reflexivity. }
  unfold fcf. rewrite !E. split; [reflexivity|].
  destruct (nansum_finite _ (finite_column_take 4 o Fo)) as [so Hso].
  destruct (nansum_finite _ (finite_column_take 4 c Fc)) as [sc Hsc].
  exists so, sc. rewrite Hso, Hsc. repeat split.
  unfold fcf_of.
  pose proof (fl_or0_feq (Fin so)) as H1. pose proof (fl_or0_feq (Fin sc)) as H2.
  destruct (fl_or0 (Fin so)) as [| | |a], (fl_or0 (Fin sc)) as [| | |b];
    simpl in H1, H2; try contradiction.
  simpl. lra.
Qed.

(** ** PEGY against PEG *)

Lemma div_pct_nonneg (div_y : pyval) :
  div_y = PNone \/ (exists d, div_y = PFloat (Fin d) /\ 0 <= d) ->
  exists dp, py_or0 (div_pct div_y) = Fin dp /\ 0 <= dp /\
             (div_y = PNone -> dp == 0).
Proof.
  intros [-> | (d & -> & Hd)].
  - exists (inject_Z 0). split; [reflexivity|]. split; [apply Qle_refl|].
    intros _. reflexivity.
  - unfold div_pct, py_or0, py_or. cbn -[Qle_bool Qeq_bool].
    destruct (Qeq_bool d 0) eqn:E0; cbn -[Qle_bool Qeq_bool].
    + rewrite E0. cbn -[Qle_bool Qeq_bool].
      exists (inject_Z 0). split; [reflexivity|]. split; [apply Qle_refl|].
      discriminate.
    + destruct (Qle_bool 1 d) eqn:E1; cbn -[Qle_bool Qeq_bool]; qbool.
      * rewrite (proj2 (Qeq_bool_false d 0)) by exact E0.
        cbn -[Qle_bool Qeq_bool].
        exists d. split; [reflexivity|]. split; [exact Hd|]. discriminate.
      * assert (Hz : Qeq_bool (d * 100) 0 = false)
          by (apply Qeq_bool_false; lra).
        rewrite Hz. cbn -[Qle_bool Qeq_bool].
        exists (d * 100). split; [reflexivity|]. split; [lra|]. discriminate.
Qed.

Lemma Qdiv_more_is_less (p g dp : Q) :
  0 < p -> 0 < g -> 0 <= dp -> 0 < p / (g + dp) /\ p / (g + dp) <= p / g.
Proof.
  intros Hp Hg Hd. split.
  - apply Qlt_shift_div_l; lra.
  - apply Qle_shift_div_r; [lra|].
    assert (Ht : 0 < p / g) by (apply Qlt_shift_div_l; lra).
    assert (Hpg : p / g * g == p) by (field; lra).
    nra.
Qed.

(** X18: for a positive P/E and a positive growth, and a dividend yield that is
    absent or not negative, PEGY is defined, positive and at most PEG; it
    is PEG when there is no dividend yield. *)
Theorem PEGY_at_most_PEG (p g : Q) (div_y : pyval) :
  0 < p -> 0 < g ->
  div_y = PNone \/ (exists d, div_y = PFloat (Fin d) /\ 0 <= d) ->
  exists a b,
    PEG (PFloat (Fin p)) (Fin g) = Fin a /\
    PEGY (PFloat (Fin p)) (Fin g) div_y = Ok (PFloat (Fin b)) /\
    0 < b /\ b <= a /\ (div_y = PNone -> b == a).
Proof.
  intros Hp Hg Hdiv.
  destruct (div_pct_nonneg div_y Hdiv) as (dp & Hdp & Hdp0 & Hnone).
  assert (Hpz : Qeq_bool p 0 = false) by (apply Qeq_bool_false; lra).
  assert (Hgz : Qeq_bool g 0 = false) by (apply Qeq_bool_false; lra).
  unfold PEG, PEGY. rewrite Hdp, safe_div_value.
  cbn -[Qle_bool Qeq_bool fdiv fmul fadd]. rewrite Hpz, Hgz.
  cbn -[Qle_bool Qeq_bool fdiv fmul fadd].
  destruct (negb (Qle_bool 1 g)) eqn:E1.
  - cbn -[Qle_bool Qeq_bool].
    assert (H1 : Qeq_bool (g * 100) 0 = false) by (apply Qeq_bool_false; lra).
    assert (H2 : Qeq_bool (g * 100 + dp) 0 = false) by (apply Qeq_bool_false; lra).
    rewrite H1, H2. cbn -[Qle_bool Qeq_bool]. rewrite ?H2.
    eexists _, _. split; [reflexivity|]. split; [reflexivity|].
    destruct (Qdiv_more_is_less p (g * 100) dp) as [Ha Hb]; try lra.
    split; [exact Ha|]. split; [exact Hb|].
    intros Hn. pose proof (Hnone Hn) as Hd0.
    setoid_replace (g * 100 + dp) with (g * 100) using relation Qeq by lra.
    reflexivity.
  - cbn -[Qle_bool Qeq_bool].
    assert (H2 : Qeq_bool (g + dp) 0 = false) by (apply Qeq_bool_false; lra).
    rewrite Hgz, H2. cbn -[Qle_bool Qeq_bool]. rewrite ?H2.
    eexists _, _. split; [reflexivity|]. split; [reflexivity|].
    destruct (Qdiv_more_is_less p g dp) as [Ha Hb]; try lra.
    split; [exact Ha|]. split; [exact Hb|].
    intros Hn. pose proof (Hnone Hn) as Hd0.
    setoid_replace (g + dp) with g using relation Qeq by lra.
    reflexivity.
Qed.

(** ** Undefined entries and the statistics of a column *)

Lemma dropna_idempotent (s : list fl) : dropna (dropna s) = dropna s.
Proof.
  unfold dropna. induction s as [|x s IH]; [reflexivity|]. simpl.
  destruct (notna x) eqn:E; [|exact IH]. simpl. by rewrite E, IH.
Qed.

Lemma dropna_map (f : fl -> fl) (s : list fl) :
  (forall x, In x s -> notna (f x) = notna x) ->
  dropna (map f s) = map f (dropna s).
Proof.
  intros H. unfold dropna. induction s as [|x s IH]; [reflexivity|]. simpl.
  rewrite (H x) by (by left).
  rewrite IH by (intros y Hy; apply H; by right).
  by destruct (notna x).
Qed.

Lemma pos_clip_value (s : list fl) (x0 : Q) :
  finite_column s -> In (Fin x0) s ->
  exists lo hi, nanmin s = Fin lo /\ nanmax s = Fin hi /\ lo <= hi /\
    forall x, (Fin 100 * (Fin x - Fin lo) / (Fin hi - Fin lo + eps9))%fl
              = Fin (100 * (x + - lo) / (hi + - lo + 0.000000001)).
Proof.
  intros Hs Hin.
  destruct (nanmin_nanmax_finite s x0 Hs Hin)
    as (lo & hi & Hlo & Hhi & _ & _ & Hlx & Hxh).
  exists lo, hi. repeat split; [exact Hlo | exact Hhi | lra |].
  intros x. unfold eps9. cbn [fsub fopp fadd fmul].
  rewrite fdiv_fin by lra. reflexivity.
Qed.

(** X19: undefined entries take no part in the statistics of a column: on a
    column without infinities, removing them before or after the standard
    scores, or the rescaling, gives the same column, and an entry is
    undefined after either exactly when it was before. *)
Theorem normalisation_ignores_nan (s : list fl) :
  finite_column s ->
  dropna (zscore s) = zscore (dropna s) /\
  dropna (pos_clip s) = pos_clip (dropna s) /\
  (forall i x, s !! i = Some x ->
     exists z v, zscore s !! i = Some z /\ pos_clip s !! i = Some v /\
                 is_nan z = is_nan x /\ is_nan v = is_nan x).
Proof.
  intros Hs.
  assert (Hz : forall x, In x s ->
            notna ((x - nanmean s) / (nanstd s + eps9))%fl = notna x).
  { intros x Hx. unfold finite_column in Hs.
    rewrite List.Forall_forall in Hs.
    destruct (Hs x Hx) as [-> | Hf]; [reflexivity|].
    destruct x as [| | |q]; try discriminate.
    apply list_elem_of_In, list_elem_of_lookup in Hx as Hl. destruct Hl as [i Hi].
    destruct (zscore_finite s i q) as [z Hzq];
      [by apply List.Forall_forall | exact Hi |].
    unfold zscore in Hzq. rewrite list_lookup_fmap, Hi in Hzq.
    cbn [fmap option_fmap option_map] in Hzq.
    assert (E : ((Fin q - nanmean s) / (nanstd s + eps9))%fl = Fin z)
      by congruence.
    by rewrite E. }
  assert (Hp : forall x, In x s ->
            notna (Fin 100 * (x - nanmin s) / (nanmax s - nanmin s + eps9))%fl
            = notna x).
  { intros x Hx. unfold finite_column in Hs.
    pose proof Hs as Hs'. rewrite List.Forall_forall in Hs.
    destruct (Hs x Hx) as [-> | Hf]; [reflexivity|].
    destruct x as [| | |q]; try discriminate.
    destruct (pos_clip_value s q Hs' Hx) as (lo & hi & -> & -> & _ & Hv).
    by rewrite Hv. }
  split; [|split].
  - unfold zscore. unfold nanmean at 2, nanstd at 2.
    rewrite dropna_idempotent. fold (nanmean s). fold (nanstd s).
    by apply dropna_map.
  - unfold pos_clip. unfold nanmin at 3 4, nanmax at 2.
    rewrite dropna_idempotent. fold (nanmin s). fold (nanmax s).
    by apply dropna_map.
  - intros i x Hx.
    assert (Hin : In x s) by (eapply list_elem_of_In, list_elem_of_lookup_2, Hx).
    eexists _, _. unfold zscore, pos_clip. rewrite !list_lookup_fmap, Hx.
    split; [reflexivity|]. split; [reflexivity|].
    specialize (Hz x Hin). specialize (Hp x Hin). unfold notna in Hz, Hp.
    split.
    + destruct (is_nan _), (is_nan x); try reflexivity; discriminate Hz.
    + destruct (is_nan (Fin 100 * _ / _)%fl), (is_nan x);
        try reflexivity; discriminate Hp.
Qed.

End Screen.

(** ** Closed instances *)

Lemma safe_div_total_quotient_witness :
  safe_div (PInt 20) (PFloat (Fin 12)) = Ok (Fin (inject_Z 20 / 12)).
Proof.
  apply (safe_div_total_quotient (PInt 20) (PFloat (Fin 12))); [reflexivity..|].
  intros H. discriminate H.
Defined.

(** C6, as stated, fails: an infinite dividend is not finite-numeric, and
    the quotient returned is the infinity, not NaN. *)
Lemma safe_div_infinite_dividend :
  finite_numeric (PFloat PInf) = false /\
  safe_divide_spec (PFloat PInf) (PInt 1) = NaN /\
  safe_div (PFloat PInf) (PInt 1) = Ok PInf.
Proof. repeat split. Qed.

Lemma ten_year_resolution_witness :
  resolve_ten_year {[ "ten_year_yield"%string := PFloat (Fin 0.04) ]}
                   (fun _ => Ok [Fin 4.2]) []
  = (PFloat (Fin 0.04), []).
Proof.
  apply (ten_year_resolution {[ "ten_year_yield"%string := PFloat (Fin 0.04) ]}
                             (fun _ => Ok [Fin 4.2]) []).
  - reflexivity.
  - discriminate.
Defined.

Lemma p_to_fcf_positive_fcf_only_witness :
  p_to_fcf (PInt 1000) (Fin 50) = Ok (Fin (inject_Z 1000 / 50)).
Proof.
  apply (p_to_fcf_positive_fcf_only (PInt 1000) (Fin 50)); reflexivity.
Defined.

(** *** Free cash flow with a missing operand *)

(** C4, the code against the claim: with one operand missing the free cash
    flow is NaN, where the claim has the missing operand count as zero
    (0 - 50 and 500 - 0). *)
Theorem fcf_missing_operand_is_nan :
  fcf (Ok ∅) (Some cf_ocf_missing) = NaN /\
  feq (fcf_spec NaN (Fin 50)) (Fin (-50)) /\
  fcf (Ok ∅) (Some cf_no_capex) = NaN /\
  feq (fcf_spec (Fin 500) NaN) (Fin 500).
Proof. repeat split. Qed.

(** *** Invested capital without a cash line *)

(** C3, the code against the claim: without a cash line the period is NaN
    ([cash or 0] keeps the NaN default), where the claim has the absent
    component count as zero: (100 - 20) - (0 + 5) - (10 + 5) = 60. *)
Theorem invested_cap_absent_cash_is_nan :
  cash (read_period (Some bs_no_cash) 0) = NaN /\
  ic_now (Some bs_no_cash) = NaN /\
  ic_prev (Some bs_no_cash) = NaN /\
  feq (invested_cap_spec (Fin 100) (Fin 20) NaN (Fin 5) (Fin 10) (Fin 5)) (Fin 60).
Proof. repeat split. Qed.

Lemma PEG_needs_pe_and_positive_growth_witness :
  PEG (PInt 30) (positive_growth (PInt 2)) = (Fin (inject_Z 30) / Fin (inject_Z 2))%fl.
Proof.
  apply (PEG_needs_pe_and_positive_growth (PInt 30) (PInt 2)); reflexivity.
Defined.

(** *** Scores of the example universe *)

(** C1, as stated, fails: AAA has a ROIC, so not all components of its
    quality sum are undefined, yet the sum (and the score) is NaN. *)
Lemma buffett_raw_partial_row_is_nan :
  is_nan <$> zscore sqrt9 (col roic_est df3) !! 0%nat = Some false /\
  buffett_raw sqrt9 df3 !! 0%nat = Some NaN /\
  cell (buffett_score sqrt9 df3) 0 = NaN /\
  ~ omits_undefined
      [roic_est AAA_metrics; fcf_margin AAA_metrics; fcf_yield AAA_metrics;
       ebit_margin AAA_metrics; net_debt AAA_metrics;
       interest_coverage AAA_metrics]
      (cell (buffett_raw sqrt9 df3) 0).
Proof.
  split; [vm_compute; reflexivity|].
  split; [vm_compute; reflexivity|].
  split; [vm_compute; reflexivity|].
  intros H.
  assert (E : cell (buffett_raw sqrt9 df3) 0 = NaN) by (vm_compute; reflexivity).
  specialize (H E). apply Forall_cons in H as [H _]. discriminate H.
Qed.

Lemma weighted_sum_nan_component_witness :
  buffett_raw sqrt9 df3 !! 0%nat = Some NaN.
Proof.
  apply (weighted_sum_nan_component sqrt9 df3 0
           {| ticker := "AAA"; metric := AAA_metrics |}).
  - reflexivity.
  - apply Exists_cons_tl, Exists_cons_hd. reflexivity.
Defined.

Lemma scores_within_0_100_witness :
  in_0_100 (cell (meta_score sqrt9 df3) 2).
Proof.
  apply (scores_within_0_100 sqrt9 df3 2
           {| base := {| ticker := "CCC"; metric := CCC_metrics |};
              buffett := cell (buffett_score sqrt9 df3) 2;
              lynch := cell (lynch_score sqrt9 df3) 2;
              icahn := cell (icahn_score sqrt9 df3) 2;
              soros := cell (soros_score sqrt9 df3) 2;
              simons := cell (simons_score sqrt9 df3) 2;
              meta := cell (meta_score sqrt9 df3) 2 |}).
  - reflexivity.
  - vm_compute. discriminate.
Defined.

(** *** Order of the output *)

Lemma screen_permutes_and_sorts_witness :
  Permutation (tickers (screen sqrt9 fetch3 ["AAA"; "BBB"; "CCC"]%string))
              ["AAA"; "BBB"; "CCC"]%string.
Proof.
  apply (screen_permutes_and_sorts sqrt9 fetch3 ["AAA"; "BBB"; "CCC"]%string).
  discriminate.
Defined.

(** C5, as stated, fails: two tickers with the same metrics have the same
    meta-score, and the output keeps ZZZ before AAA. *)
Lemma screen_tie_not_by_ticker :
  let out := screen sqrt9 (fun _ => BBB_metrics) ["ZZZ"; "AAA"]%string in
  tickers out = ["ZZZ"; "AAA"]%string /\
  Forall (fun r => feq (meta r) (Fin 0)) out /\
  String.leb "ZZZ" "AAA" = false /\
  ~ ticker_tie_break out.
Proof.
  cbv zeta.
  let o := eval vm_compute in
             (screen sqrt9 (fun _ => BBB_metrics) ["ZZZ"; "AAA"]%string) in
  assert (E : screen sqrt9 (fun _ => BBB_metrics) ["ZZZ"; "AAA"]%string = o)
    by (vm_compute; reflexivity).
  rewrite E. clear E.
  split; [reflexivity|].
  split; [repeat constructor|].
  split; [reflexivity|].
  intros H.
  specialize (H 0%nat 1%nat _ _ (Nat.lt_0_succ 0) eq_refl eq_refl).
  discriminate H. reflexivity.
Qed.

(** ** Closed instances of the further properties *)

Lemma sqrt9_nonneg (q : Q) : 0 <= q -> 0 <= sqrt9 q.
Proof.
  intros _. unfold sqrt9, Qle. cbn [Qnum Qden].
  rewrite Z.mul_0_l, Z.mul_1_r. apply Z.sqrt_nonneg.
Qed.

(** Every entry of a listed column is NaN or finite. *)
Ltac finite_col :=
  unfold finite_column;
  repeat (constructor; [first [left; reflexivity | right; reflexivity]|]);
  constructor.

Lemma shr_change_first_to_last_witness :
  exists v, shr_change (Ok (Some [Fin 100; NaN; Fin 110; Fin 90])) = Fin v /\
            v == (90 - 100) / (if Qle_bool 0 100 then 100 else - (100)) /\
            (0 < v <-> 100 < 90).
Proof.
  destruct (shr_change_first_to_last [Fin 100; NaN; Fin 110; Fin 90])
    as (_ & _ & _ & H).
  apply (H 100 90 [Fin 110]); [reflexivity | discriminate].
Defined.

Lemma usd_dxy_resolution_witness :
  fst (resolve_usd_dxy ∅ (fun sym => if String.eqb sym "^DXY" then Ok [Fin 104]
                                     else Raise ProviderError) [])
  = PFloat (Fin 104).
Proof.
  destruct (usd_dxy_resolution ∅
              (fun sym => if String.eqb sym "^DXY" then Ok [Fin 104]
                          else Raise ProviderError) [])
    as (_ & _ & H).
  destruct (H eq_refl) as [_ H2].
  destruct (H2 (or_intror (ex_intro _ ProviderError eq_refl))) as [H3 _].
  apply (H3 [Fin 104] (Fin 104)); reflexivity.
Defined.

Lemma macro_proxies_queries_witness :
  wti (fst (macro_proxies {[ "wti"%string := PFloat (Fin 80) ]}
                          (fun _ => Ok [Fin 75]) []))
  = PFloat (Fin 80).
Proof.
  destruct (macro_proxies_queries {[ "wti"%string := PFloat (Fin 80) ]}
              (fun _ => Ok [Fin 75]) []) as (_ & H & _).
  apply H. reflexivity.
Defined.

Lemma roic_of_available_periods_witness :
  exists v, roic (Fin 100) (Fin 400) NaN = Ok (Fin v) /\ v == 0.79 * 100 / 400.
Proof.
  destruct (roic_of_available_periods (Fin 100) (Fin 400) NaN) as (_ & H & _).
  apply (H 100 400); [reflexivity | left; split; reflexivity | discriminate].
Defined.


Lemma int_cov_sign_of_ebit_witness :
  exists v, int_cov (Fin 50) (Fin (-10)) = Ok (Fin v) /\
            v == 50 / (if Qle_bool 0 (-10) then -10 else - (-10)) /\
            (0 <= v <-> 0 <= 50).
Proof.
  destruct (int_cov_sign_of_ebit (Fin 50) (Fin (-10))) as [_ H].
  apply (H 50 (-10)); [reflexivity | reflexivity | discriminate].
Defined.

Lemma macro_sensitivity_levels_witness :
  exists n : nat,
    feq (macro_sensitivity_of (Some "Financial Services"%string) NaN)
        (Fin (inject_Z (Z.of_nat n))) /\ (2 <= n)%nat.
Proof.
  destruct (macro_sensitivity_levels (Some "Financial Services"%string) NaN)
    as (n & H1 & _ & H3 & _).
  exists n. split; [exact H1|]. apply H3. left. reflexivity.
Defined.

Lemma ip_of_first_match_witness :
  ip_of (Some {| ip_columns := ["patent_count"; "rd_to_sales"]%string;
                 ip_rows := [("xyz"%string, {[ "patent_count"%string := Fin 3 ]});
                             ("Abc"%string, {[ "patent_count"%string := Fin 12 ]});
                             ("ABC"%string, {[ "patent_count"%string := Fin 7 ]})] |})
        "abc"
  = {| ip_patents := Fin 12; ip_citations := NaN; ip_rd := NaN |}.
Proof.
  destruct (ip_of_first_match
              {| ip_columns := ["patent_count"; "rd_to_sales"]%string;
                 ip_rows := [("xyz"%string, {[ "patent_count"%string := Fin 3 ]});
                             ("Abc"%string, {[ "patent_count"%string := Fin 12 ]});
                             ("ABC"%string, {[ "patent_count"%string := Fin 7 ]})] |}
              "abc") as (_ & _ & H & _).
  rewrite (H [("xyz"%string, {[ "patent_count"%string := Fin 3 ]})]
             ("Abc"%string, {[ "patent_count"%string := Fin 12 ]})
             [("ABC"%string, {[ "patent_count"%string := Fin 7 ]})]).
  - reflexivity.
  - reflexivity.
  - intros r' [<- | []]. discriminate.
  - reflexivity.
Defined.



Lemma ip_boost_needs_all_ip_fields_witness :
  buffett_score sqrt9 df3 !! 1%nat = pos_clip (buffett_raw sqrt9 df3) !! 1%nat.
Proof.
  apply (ip_boost_needs_all_ip_fields sqrt9 df3 1
           {| ticker := "BBB"; metric := BBB_metrics |}).
  - reflexivity.
  - apply Exists_cons_hd. reflexivity.
Defined.

Lemma top20_are_best_witness :
  length (top20 sqrt9 fetch3 ["AAA"; "BBB"; "CCC"]%string) = 3%nat.
Proof.
  destruct (top20_are_best sqrt9 fetch3 ["AAA"; "BBB"; "CCC"]%string)
    as [H _]; [discriminate | exact H].
Defined.

Lemma growth_proxy_positive_or_nan_witness :
  growth_proxy (fun x _ => x) (PFloat (Fin 0.10)) (Some is_four_years) = Fin 0.10.
Proof.
  apply (growth_proxy_positive_or_nan (fun x _ => x) (PFloat (Fin 0.10))
           (Some is_four_years)); reflexivity.
Defined.

Lemma growth_rev_reads_four_periods_witness :
  growth_rev (fun x _ => x) (Some {[ "Total Revenue"%string := [Fin 5; NaN; NaN; NaN; Fin 4] ]})
  = NaN.
Proof.
  destruct (growth_rev_reads_four_periods (fun x _ => x)
              {[ "Total Revenue"%string := [Fin 5; NaN; NaN; NaN; Fin 4] ]})
    as (_ & _ & H & _).
  apply (H [Fin 5; NaN; NaN; NaN; Fin 4]); [reflexivity | simpl; lia].
Defined.

Lemma invested_cap_defined_iff_witness :
  feq (invested_cap (Fin 100) (Fin 20) (Fin 10) (Fin 5) (Fin 10) (Fin 5))
      (Fin ((100 - 20) - (10 + 5) - (10 + 5))).
Proof.
  destruct (invested_cap_defined_iff (Fin 100) (Fin 20) (Fin 10) (Fin 5) (Fin 10) (Fin 5))
    as [_ H].
  - finite_col.
  - apply (H 100 20 10 5 10 5); reflexivity.
Defined.

Lemma fcf_quarterly_sums_witness :
  fcf (Ok {[ ocf_label := [Fin 30; NaN; Fin 25; Fin 20; Fin 99];
             capex_label := [Fin 5; Fin 5; NaN; Fin 5] ]})
      (Some cf_ocf_missing)
  = fcf (Ok {[ ocf_label := [Fin 30; NaN; Fin 25; Fin 20; Fin 99];
               capex_label := [Fin 5; Fin 5; NaN; Fin 5] ]})
        None.
Proof.
  apply (fcf_quarterly_sums
           {[ ocf_label := [Fin 30; NaN; Fin 25; Fin 20; Fin 99];
              capex_label := [Fin 5; Fin 5; NaN; Fin 5] ]}
           (Some cf_ocf_missing)
           [Fin 30; NaN; Fin 25; Fin 20; Fin 99] [Fin 5; Fin 5; NaN; Fin 5]);
    try reflexivity; finite_col.
Defined.

Lemma PEGY_at_most_PEG_witness :
  exists a b,
    PEG (PFloat (Fin 20)) (Fin 0.10) = Fin a /\
    PEGY (PFloat (Fin 20)) (Fin 0.10) (PFloat (Fin 0.02)) = Ok (PFloat (Fin b)) /\
    0 < b /\ b <= a.
Proof.
  destruct (PEGY_at_most_PEG 20 0.10 (PFloat (Fin 0.02)))
    as (a & b & H1 & H2 & H3 & H4 & _).
  - reflexivity.
  - reflexivity.
  - right. exists 0.02. split; [reflexivity | discriminate].
  - exists a, b. repeat split; assumption.
Defined.

Lemma normalisation_ignores_nan_witness :
  dropna (zscore sqrt9 [Fin 1; NaN; Fin 3]) = zscore sqrt9 (dropna [Fin 1; NaN; Fin 3]).
Proof.
  apply (normalisation_ignores_nan sqrt9 sqrt9_nonneg [Fin 1; NaN; Fin 3]).
  finite_col.
Defined.

Lemma undefined_metric_sorts_last_witness :
  meta <$> screen sqrt9 (fun t => if String.eqb t "BBB" then BBB_metrics
                                   else AAA_metrics)
                  ["AAA"; "BBB"; "AAB"]%string !! 2%nat
  = Some NaN.
Proof.
  destruct (screen sqrt9 (fun t => if String.eqb t "BBB" then BBB_metrics
                                   else AAA_metrics)
                   ["AAA"; "BBB"; "AAB"]%string !! 1%nat) as [a|] eqn:Ha;
    [|vm_compute in Ha; discriminate Ha].
  destruct (screen sqrt9 (fun t => if String.eqb t "BBB" then BBB_metrics
                                   else AAA_metrics)
                   ["AAA"; "BBB"; "AAB"]%string !! 2%nat) as [b|] eqn:Hb;
    [|vm_compute in Hb; discriminate Hb].
  cbn [fmap option_fmap option_map]. f_equal.
  assert (Hbase : metric (base a) = AAA_metrics).
  { pose proof Ha as Ha'. vm_compute in Ha'. injection Ha' as <-. reflexivity. }
  apply (undefined_metric_sorts_last sqrt9 _ _ 1 2 a b (Nat.lt_succ_diag_r 1) Ha Hb).
  rewrite Hbase. apply Exists_cons_tl, Exists_cons_hd. reflexivity.
Defined.
